(** * Kernel-spec discovery and caching (LocalKernelSpecFinderBase, loadKernelSpec)

    A shallow embedding of the kernel-spec finder of the Jupyter extension:
    the loader/normaliser [loadKernelSpec], the per-file memoisation
    [getKernelSpec], the quarantine of old specs [deleteOldKernelSpec], the
    listing cache [listKernelsWithCache], the memento bridge
    [listKernelsFirstTimeFromMemento] / [isValidCachedKernel] and the
    path-search cache [findKernelSpecsInPath].

    Conventions of the model.
    - A JavaScript string is a [string]; its characters stand for UTF-16 code
      units below 128, and the case mappings are the ASCII ones.
    - [undefined] is [None]; JavaScript truthiness of an optional string is
      [truthy] (present and not empty).
    - A promise that the code only ever awaits is identified with the value it
      settles to; where the code depends on a promise being pending (the
      path-search cache) promises are explicit objects of a small event-loop
      machine. *)

From Stdlib Require Import Ascii String List Bool Arith ZArith Lia Sorted Permutation.
From stdpp Require Import base option list gmap strings.
Import ListNotations.
Local Open Scope string_scope.
Local Open Scope list_scope.
Local Open Scope nat_scope.

(** ** JavaScript strings *)

Module JsString.

Definition code (c : ascii) : nat := nat_of_ascii c.

Definition in_range (lo hi : nat) (c : ascii) : bool :=
  (lo <=? code c) && (code c <=? hi).

(** [String.prototype.toLowerCase] on one ASCII code unit. *)
Definition lowerChar (c : ascii) : ascii :=
  if in_range 65 90 c then ascii_of_nat (code c + 32) else c.

(** [String.prototype.toUpperCase] on one ASCII code unit. *)
Definition upperChar (c : ascii) : ascii :=
  if in_range 97 122 c then ascii_of_nat (code c - 32) else c.

Fixpoint map_string (f : ascii -> ascii) (s : string) : string :=
  match s with
  | EmptyString => EmptyString
  | String c r => String (f c) (map_string f r)
  end.

Definition toLowerCase : string -> string := map_string lowerChar.
Definition toUpperCase : string -> string := map_string upperChar.

(** [s.includes(sub)]: [sub] occurs in [s] at some position. *)
Fixpoint includes (s sub : string) : bool :=
  String.prefix sub s ||
  match s with
  | EmptyString => false
  | String _ r => includes r sub
  end.

(** [parts.join(sep)]. *)
Fixpoint join (sep : string) (parts : list string) : string :=
  match parts with
  | [] => ""
  | [p] => p
  | p :: rest => p +:+ sep +:+ join sep rest
  end.

(** Truthiness of an optional string: [undefined] and [''] are falsy. *)
Definition truthy (o : option string) : bool :=
  match o with
  | Some s => negb (String.eqb s "")
  | None => false
  end.

(** [a || b] on optional strings. *)
Definition or_else (a b : option string) : option string :=
  if truthy a then a else b.

(** An optional string inside a template literal: [`${undefined}`] is the
    text [undefined]. *)
Definition interpolate (o : option string) : string :=
  match o with
  | Some s => s
  | None => "undefined"
  end.

(** [a < b] on strings: lexicographic on code units. *)
Fixpoint ltb (a b : string) : bool :=
  match a, b with
  | _, EmptyString => false
  | EmptyString, String _ _ => true
  | String x a', String y b' =>
      (code x <? code y) || ((code x =? code y) && ltb a' b')
  end.

End JsString.

(** ** Regular expressions

    The fragment of JavaScript regular expressions the finder uses: literal
    characters and character classes, each possibly starred or optional, and
    the end-of-input assertion.  Matching is by backtracking; only whether a
    match exists is observed. *)

Module Regex.

Inductive Atom :=
| Lit (c : ascii)
| Whitespace        (* \s *)
| Digit             (* \d *)
| AnyChar.          (* .  : any character but a line terminator *)

Inductive Item :=
| One (a : Atom)
| Star (a : Atom)   (* a* *)
| Opt (a : Atom)    (* a? *)
| EndOfInput.       (* $  *)

Definition accepts (a : Atom) (c : ascii) : bool :=
  match a with
  | Lit d => Ascii.eqb c d
  | Whitespace => JsString.in_range 9 13 c || (JsString.code c =? 32)
  | Digit => JsString.in_range 48 57 c
  | AnyChar => negb ((JsString.code c =? 10) || (JsString.code c =? 13))
  end.

(** Does the pattern match a prefix of the text (with [$] demanding that the
    text be exhausted)? *)
Fixpoint match_here (re : list Item) : string -> bool :=
  match re with
  | [] => fun _ => true
  | One a :: rest => fun s =>
      match s with
      | String c s' => accepts a c && match_here rest s'
      | EmptyString => false
      end
  | Opt a :: rest => fun s =>
      match s with
      | String c s' => (accepts a c && match_here rest s') || match_here rest s
      | EmptyString => match_here rest s
      end
  | Star a :: rest =>
      fix star (s : string) : bool :=
        match s with
        | String c s' => (accepts a c && star s') || match_here rest s
        | EmptyString => match_here rest s
        end
  | EndOfInput :: rest => fun s =>
      match s with
      | EmptyString => match_here rest s
      | String _ _ => false
      end
  end.

(** [text.match(re)] is not null: the pattern matches at some position. *)
Fixpoint matches (re : list Item) (s : string) : bool :=
  match_here re s ||
  match s with
  | EmptyString => false
  | String _ s' => matches re s'
  end.

Definition literal (s : string) : list Item :=
  map (fun c => One (Lit c)) (list_ascii_of_string s).

End Regex.

(** [/python\s\d*.?\d*$/] *)
Definition isDefaultPythonKernelSpecSpecName : list Regex.Item :=
  Regex.literal "python" ++
  [Regex.One Regex.Whitespace; Regex.Star Regex.Digit; Regex.Opt Regex.AnyChar;
   Regex.Star Regex.Digit; Regex.EndOfInput].

Definition oldKernelsSpecFolderName : string := "__old_vscode_kernelspecs".

(** Modelled from the spec: the constant [PYTHON_LANGUAGE] of
    platform/common/constants, the language tag of Python kernels. *)
Definition PYTHON_LANGUAGE : string := "python".

(** ** Paths

    Modelled from the spec: platform/vscode-path/path is not among the
    sources; [basename], [dirname] and [join] follow the POSIX flavour of the
    Node path module that it re-exports. *)

Module path.

Definition slash : ascii := "/"%char.
Definition is_slash (c : ascii) : bool := Ascii.eqb c slash.

Definition chars := list_ascii_of_string.
Definition text := string_of_list_ascii.

Fixpoint drop_while {A} (f : A -> bool) (l : list A) : list A :=
  match l with
  | x :: r => if f x then drop_while f r else l
  | [] => []
  end.

Fixpoint take_while {A} (f : A -> bool) (l : list A) : list A :=
  match l with
  | x :: r => if f x then x :: take_while f r else []
  | [] => []
  end.

(** Last portion of a path, trailing separators ignored. *)
Definition basename (p : string) : string :=
  text (rev (take_while (fun c => negb (is_slash c))
                        (drop_while is_slash (rev (chars p))))).

(** Directory part of a path. *)
Definition dirname (p : string) : string :=
  match chars p with
  | [] => "."
  | c0 :: rest =>
      let hasRoot := is_slash c0 in
      let before :=
        drop_while (fun c => negb (is_slash c)) (drop_while is_slash (rev rest)) in
      match before with
      | [] => if hasRoot then "/" else "."
      | _ :: more =>
          match more with
          | [] => if hasRoot then "//" else text [c0]
          | _ => text (c0 :: rev more)
          end
      end
  end.

(** Segments of a path between separators. *)
Fixpoint split_aux (cur : list ascii) (l : list ascii) : list string :=
  match l with
  | [] => [text (rev cur)]
  | c :: r => if is_slash c then text (rev cur) :: split_aux [] r
              else split_aux (c :: cur) r
  end.

Definition split (p : string) : list string := split_aux [] (chars p).

Definition push_segment (allowAboveRoot : bool) (stack : list string) (seg : string)
  : list string :=
  if String.eqb seg "" || String.eqb seg "." then stack
  else if String.eqb seg ".." then
    match stack with
    | top :: below => if String.eqb top ".." then seg :: stack else below
    | [] => if allowAboveRoot then [seg] else []
    end
  else seg :: stack.

Definition normalizeString (p : string) (allowAboveRoot : bool) : string :=
  JsString.join "/" (rev (fold_left (push_segment allowAboveRoot) (split p) [])).

Definition normalize (p : string) : string :=
  match chars p with
  | [] => "."
  | c0 :: _ =>
      let isAbsolute := is_slash c0 in
      let trailingSeparator :=
        match rev (chars p) with c :: _ => is_slash c | [] => false end in
      let body := normalizeString p (negb isAbsolute) in
      if String.eqb body "" then
        if isAbsolute then "/" else if trailingSeparator then "./" else "."
      else
        let body := if trailingSeparator then body +:+ "/" else body in
        if isAbsolute then "/" +:+ body else body
  end.

Definition join (parts : list string) : string :=
  let joined := JsString.join "/" (List.filter (fun s => negb (String.eqb s "")) parts) in
  if String.eqb joined "" then "." else normalize joined.

End path.

(** ** Data model *)

Record Uri := { fsPath : string }.

Module Uri.
Definition file (p : string) : Uri := {| fsPath := p |}.
End Uri.

Record PythonEnvironment := { uri : Uri }.

(** Provenance of a kernel spec, as [getKernelRegistrationInfo] reports it. *)
Inductive RegistrationInfo :=
| registeredByNewVersionOfExt
| registeredByOldVersionOfExt.

(** [metadata.vscode] *)
Record VSCodeMetadata := {
  vscode_originalSpecFile : option string;
  vscode_originalDisplayName : option string
}.

(** [metadata.interpreter] *)
Record InterpreterMetadata := { interpreter_path : option string }.

(** [metadata]; [originalSpecFile] is the legacy top-level field. *)
Record KernelSpecMetadata := {
  vscode : option VSCodeMetadata;
  interpreter : option InterpreterMetadata;
  originalSpecFile : option string
}.

(** A kernel spec: the parsed kernel.json (where [specFile],
    [interpreterPath] and [isRegisteredByVSC] are absent) and the
    [JupyterKernelSpec] object built from it. *)
Record IJupyterKernelSpec := {
  name : option string;
  display_name : string;
  language : option string;
  argv : list string;
  metadata : option KernelSpecMetadata;
  specFile : option string;
  interpreterPath : option string;
  isRegisteredByVSC : option RegistrationInfo
}.

Definition with_name (n : option string) (k : IJupyterKernelSpec) : IJupyterKernelSpec :=
  {| name := n; display_name := display_name k; language := language k;
     argv := argv k; metadata := metadata k; specFile := specFile k;
     interpreterPath := interpreterPath k; isRegisteredByVSC := isRegisteredByVSC k |}.

Definition with_metadata (m : option KernelSpecMetadata) (k : IJupyterKernelSpec)
  : IJupyterKernelSpec :=
  {| name := name k; display_name := display_name k; language := language k;
     argv := argv k; metadata := m; specFile := specFile k;
     interpreterPath := interpreterPath k; isRegisteredByVSC := isRegisteredByVSC k |}.

(** Modelled from the spec: the constructor of [JupyterKernelSpec]
    (kernels/jupyter/jupyterKernelSpec) is not among the sources; it copies
    the fields of the spec model and records the spec file, the interpreter
    path and the registration info it is given. *)
Definition JupyterKernelSpec (specModel : IJupyterKernelSpec) (specFile' : string)
    (interpreterPath' : option string) (registrationInfo : option RegistrationInfo)
  : IJupyterKernelSpec :=
  {| name := name specModel; display_name := display_name specModel;
     language := language specModel; argv := argv specModel;
     metadata := metadata specModel; specFile := Some specFile';
     interpreterPath := interpreterPath'; isRegisteredByVSC := registrationInfo |}.

(** ** The file system

    A path holds a directory, a file whose text parses as a kernel spec, or a
    file whose text is not valid JSON.  A file whose text parses to something
    that is not a kernel spec (no [display_name], no [argv]) makes the loader
    throw outside its [try] block; there is no such file here. *)

Inductive FileNode :=
| Directory
| KernelJson (json : IJupyterKernelSpec)
| Garbage.

Module fs.

(** [fs.exists(Uri.file(p))] *)
Definition exists_ (files : gmap string FileNode) (p : string) : bool :=
  bool_decide (is_Some (files !! p)).

(** [JSON.parse(await fs.readFile(p))]; [None] when reading or parsing throws. *)
Definition readJson (files : gmap string FileNode) (p : string)
  : option IJupyterKernelSpec :=
  match files !! p with
  | Some (KernelJson json) => Some json
  | _ => None
  end.

End fs.

(** A cancellation token as one asynchronous function observes it:
    [isCancellationRequested t n] is the flag at its [n]-th read, in program
    order. *)
Record CancellationToken := { isCancellationRequested : nat -> bool }.

(** ** Kernel connections *)

(** [LocalKernelConnectionMetadata]: the union of
    [PythonKernelConnectionMetadata] and [LocalKernelSpecConnectionMetadata],
    told apart by [kind]. *)
Inductive LocalKernelConnectionMetadata :=
| startUsingPythonInterpreter
    (id : string) (kernelSpec : IJupyterKernelSpec) (interpreter : PythonEnvironment)
| startUsingLocalKernelSpec
    (id : string) (kernelSpec : IJupyterKernelSpec) (interpreter : option PythonEnvironment).

Module Kernel.

Definition id (k : LocalKernelConnectionMetadata) : string :=
  match k with
  | startUsingPythonInterpreter i _ _ => i
  | startUsingLocalKernelSpec i _ _ => i
  end.

Definition kernelSpec (k : LocalKernelConnectionMetadata) : IJupyterKernelSpec :=
  match k with
  | startUsingPythonInterpreter _ s _ => s
  | startUsingLocalKernelSpec _ s _ => s
  end.

End Kernel.

Record KernelSpecFileWithContainingInterpreter := {
  containingInterpreter : option PythonEnvironment;
  kernelSpecFile : Uri
}.

(** Helpers of the extension that are imported, not defined, by the finder:
    kernels/helpers and platform/vscode-path/resources. *)
Class Helpers := {
  getInterpreterKernelSpecName : PythonEnvironment -> string;
  getKernelRegistrationInfo : IJupyterKernelSpec -> option RegistrationInfo;
  getComparisonKey : Uri -> string;
  isEqualOrParent : Uri -> Uri -> bool;
  isEqual : Uri -> Uri -> bool;
  joinPath : Uri -> string -> Uri;
  deserializeKernelConnection : LocalKernelConnectionMetadata -> LocalKernelConnectionMetadata
}.

(** ** Loading and normalising one kernel spec *)

Section Loader.
Context `{Helpers}.

(** The launch arguments that every Python kernel spec has. *)
Definition standardLaunchArguments : list string :=
  ["-m"; "ipykernel"; "ipykernel_launcher"; "-f"; "{connection_file}"].

(** [argv.slice(1).map(toLowerCase).filter(arg => !standard.includes(arg))] *)
Definition customLaunchArguments (argv' : list string) : list string :=
  List.filter (fun arg => negb (existsb (String.eqb arg) standardLaunchArguments))
              (map JsString.toLowerCase (skipn 1 argv')).

Definition isPythonLanguage (l : option string) : bool :=
  match l with
  | Some s => String.eqb s PYTHON_LANGUAGE
  | None => false
  end.

(** Lines 374-386: a custom Python launch configuration is told apart by its
    launch arguments. *)
Definition addLaunchArgumentsToName (kernelJson : IJupyterKernelSpec) : IJupyterKernelSpec :=
  let isDefaultPythonName :=
    Regex.matches isDefaultPythonKernelSpecSpecName
                  (JsString.toLowerCase (display_name kernelJson)) in
  if negb isDefaultPythonName && isPythonLanguage (language kernelJson)
     && (2 <? length (argv kernelJson)) then
    let argv' := customLaunchArguments (argv kernelJson) in
    match argv' with
    | [] => kernelJson
    | _ => with_name (Some (JsString.interpolate (name kernelJson) +:+ "."
                            +:+ JsString.join "#" argv')) kernelJson
    end
  else kernelJson.

(** Lines 387-398: the [vscode] metadata is created and back-filled, and the
    legacy top-level [originalSpecFile] migrates into it. *)
Definition normalizeMetadata (specPath : Uri) (kernelJson : IJupyterKernelSpec)
  : KernelSpecMetadata :=
  let md := default {| vscode := None; interpreter := None; originalSpecFile := None |}
                    (metadata kernelJson) in
  let vs := default {| vscode_originalSpecFile := None; vscode_originalDisplayName := None |}
                    (vscode md) in
  let spec1 := if JsString.truthy (vscode_originalSpecFile vs)
               then vscode_originalSpecFile vs else Some (fsPath specPath) in
  let disp1 := if JsString.truthy (vscode_originalDisplayName vs)
               then vscode_originalDisplayName vs else Some (display_name kernelJson) in
  if JsString.truthy (originalSpecFile md) then
    {| vscode := Some {| vscode_originalSpecFile := originalSpecFile md;
                         vscode_originalDisplayName := disp1 |};
       interpreter := interpreter md;
       originalSpecFile := None |}
  else
    {| vscode := Some {| vscode_originalSpecFile := spec1;
                         vscode_originalDisplayName := disp1 |};
       interpreter := interpreter md;
       originalSpecFile := originalSpecFile md |}.

(** [interpreter?.uri.fsPath || kernelJson?.metadata?.interpreter?.path] *)
Definition interpreterPathOf (interp : option PythonEnvironment)
    (kernelJson : IJupyterKernelSpec) : option string :=
  JsString.or_else
    (match interp with Some i => Some (fsPath (uri i)) | None => None end)
    (match metadata kernelJson with
     | Some md => match interpreter md with
                  | Some im => interpreter_path im
                  | None => None
                  end
     | None => None
     end).

(** The name a spec has before its launch arguments are looked at (line 368). *)
Definition nameFor (interp : option PythonEnvironment) (kernelJson : IJupyterKernelSpec)
  : option string :=
  match interp with
  | Some i => Some (getInterpreterKernelSpecName i)
  | None => name kernelJson
  end.

(** [loadKernelSpec(specPath, fs, cancelToken, interpreter)]; [None] is
    [undefined].  The token is read after the file is parsed (read 0) and
    after the interpreter's name is computed (read 1). *)
Definition loadKernelSpec (specPath : Uri) (files : gmap string FileNode)
    (cancelToken : CancellationToken) (interp : option PythonEnvironment)
  : option IJupyterKernelSpec :=
  if JsString.includes (fsPath specPath) oldKernelsSpecFolderName then None else
  match fs.readJson files (fsPath specPath) with
  | None => None
  | Some kernelJson =>
      if isCancellationRequested cancelToken 0 then None else
      let kernelJson := with_name (nameFor interp kernelJson) kernelJson in
      if isCancellationRequested cancelToken 1 then None else
      let kernelJson := addLaunchArgumentsToName kernelJson in
      let kernelJson :=
        with_metadata (Some (normalizeMetadata specPath kernelJson)) kernelJson in
      let kernelSpec :=
        JupyterKernelSpec kernelJson (fsPath specPath)
                          (interpreterPathOf interp kernelJson)
                          (getKernelRegistrationInfo kernelJson) in
      let kernelSpec :=
        with_name (JsString.or_else (name kernelJson)
                     (Some (path.basename (path.dirname (fsPath specPath)))))
                  kernelSpec in
      let interpreterPath' := interpreterPathOf interp kernelJson in
      if JsString.truthy interpreterPath'
         && negb (fs.exists_ files (default "" interpreterPath'))
      then None
      else Some kernelSpec
  end.

End Loader.

(** ** The world outside the finder: files, the memento, the log *)

(** What a memento key may hold: a string, or a cache blob
    [{ kernels, extensionVersion }] whose [kernels] is an array ([Some]) or
    something else ([None]).  As in the TypeScript typing, the stored kernels
    have the type of kernel connections; [deserializeKernelConnection] maps
    the wire form back. *)
Inductive MementoValue :=
| StoredString (s : string)
| StoredKernels (kernels : option (list LocalKernelConnectionMetadata))
                (extensionVersion : string).

Inductive FsCall :=
| CreateDirectory (p : string)
| Copy (src dst : string)
| Delete (p : string).

Record World := {
  files : gmap string FileNode;
  (** the calls the file system rejects (permissions, locks, ...) *)
  refuses : FsCall -> bool;
  (** the calls issued so far, oldest first *)
  journal : list FsCall;
  (** [traceInfo] messages, oldest first *)
  trace : list string;
  _oldKernelSpecsFolder : option string;
  globalState : gmap string MementoValue
}.

Definition with_files (f : gmap string FileNode) (w : World) : World :=
  {| files := f; refuses := refuses w; journal := journal w; trace := trace w;
     _oldKernelSpecsFolder := _oldKernelSpecsFolder w; globalState := globalState w |}.

Definition issue (c : FsCall) (w : World) : World :=
  {| files := files w; refuses := refuses w; journal := journal w ++ [c];
     trace := trace w; _oldKernelSpecsFolder := _oldKernelSpecsFolder w;
     globalState := globalState w |}.

Definition traceInfo (msg : string) (w : World) : World :=
  {| files := files w; refuses := refuses w; journal := journal w;
     trace := trace w ++ [msg]; _oldKernelSpecsFolder := _oldKernelSpecsFolder w;
     globalState := globalState w |}.

(** The setter of [oldKernelSpecsFolder]: the field and the memento. *)
Definition set_oldKernelSpecsFolder (value : string) (w : World) : World :=
  {| files := files w; refuses := refuses w; journal := journal w; trace := trace w;
     _oldKernelSpecsFolder := Some value;
     globalState := <["OLD_KERNEL_SPECS_FOLDER__" := StoredString value]> (globalState w) |}.

(** An asynchronous computation over the world: it returns, or it rejects
    with the file-system call that failed. *)
Inductive Outcome (A : Type) :=
| Returned (a : A)
| Rejected (by_call : FsCall).
Arguments Returned {A} a.
Arguments Rejected {A} by_call.

Definition Async (A : Type) : Type := World -> Outcome A * World.

Definition ret {A} (a : A) : Async A := fun w => (Returned a, w).

Definition bind {A B} (m : Async A) (k : A -> Async B) : Async B :=
  fun w => match m w with
           | (Returned a, w') => k a w'
           | (Rejected c, w') => (Rejected c, w')
           end.

(** [m.catch(noop)] *)
Definition catch_noop (m : Async unit) : Async unit :=
  fun w => match m w with
           | (Returned a, w') => (Returned a, w')
           | (Rejected _, w') => (Returned tt, w')
           end.

Definition effect (f : World -> World) : Async unit := fun w => (Returned tt, f w).

(** [await m; k] is written [m ;; k]. *)
#[export] Instance Async_ret : MRet Async := @ret.
#[export] Instance Async_bind : MBind Async := fun A B k m => bind m k.

Module fsnode.

(** One call on the file system: it is journalled, then it is rejected if
    the file system refuses it, and otherwise takes effect. *)
Definition call (c : FsCall) (run : gmap string FileNode -> option (gmap string FileNode))
  : Async unit :=
  fun w =>
    let w := issue c w in
    if refuses w c then (Rejected c, w)
    else match run (files w) with
         | Some f => (Returned tt, with_files f w)
         | None => (Rejected c, w)
         end.

(** Creating a directory adds that directory; the directories above it are
    not kept track of. *)
Definition createDirectory (p : string) : Async unit :=
  call (CreateDirectory p) (fun f => Some (<[p := Directory]> f)).

(** Copying needs the source to exist. *)
Definition copy (src dst : string) : Async unit :=
  call (Copy src dst)
       (fun f => match f !! src with
                 | Some node => Some (<[dst := node]> f)
                 | None => None
                 end).

(** Deleting needs the target to exist. *)
Definition delete (p : string) : Async unit :=
  call (Delete p)
       (fun f => match f !! p with
                 | Some _ => Some (base.delete p f)
                 | None => None
                 end).

End fsnode.

(** ** Quarantine of kernel specs registered by an earlier run *)

Definition deleteOldKernelSpec (kernelSpecFile' : string) : Async unit :=
  let kernelSpecFolderName := path.basename (path.dirname kernelSpecFile') in
  let destinationFolder :=
    path.join [path.dirname (path.dirname kernelSpecFile'); oldKernelsSpecFolderName] in
  let destinationFile :=
    path.join [destinationFolder; kernelSpecFolderName; path.basename kernelSpecFile'] in
  effect (set_oldKernelSpecsFolder destinationFolder) ;;
  fsnode.createDirectory (path.dirname destinationFile) ;;
  catch_noop (fsnode.copy kernelSpecFile' destinationFile) ;;
  fsnode.delete kernelSpecFile' ;;
  effect (traceInfo ("Old KernelSpec '" +:+ kernelSpecFile'
                     +:+ "' deleted and backup stored in " +:+ destinationFolder)).

(** Where [deleteOldKernelSpec] archives a spec file. *)
Definition quarantineFile (kernelSpecFile' : string) : string :=
  path.join [path.join [path.dirname (path.dirname kernelSpecFile');
                        oldKernelsSpecFolderName];
             path.basename (path.dirname kernelSpecFile');
             path.basename kernelSpecFile'].

(** A settled promise. *)
Inductive Settled (A : Type) :=
| Fulfilled (value : A)
| Failed (reason : string).
Arguments Fulfilled {A} value.
Arguments Failed {A} reason.

(** ** The per-file memoisation of loaded specs *)

Record SpecCache := {
  (** [pathToKernelSpec]: every promise stored there comes from
      [loadKernelSpec] and is identified with the value it resolves to *)
  pathToKernelSpec : gmap string (option IJupyterKernelSpec);
  cache : option (list KernelSpecFileWithContainingInterpreter)
}.

Section Memo.
Context `{Helpers}.

(** [kernelSpec && globalSpecRootPath && getKernelRegistrationInfo(kernelSpec)
     && kernelSpec.specFile && isEqualOrParent(Uri.file(kernelSpec.specFile), globalSpecRootPath)] *)
Definition shouldDeleteKernelSpec (kernelSpec' : option IJupyterKernelSpec)
    (globalSpecRootPath : option Uri) : bool :=
  match kernelSpec', globalSpecRootPath with
  | Some ks, Some root =>
      bool_decide (is_Some (getKernelRegistrationInfo ks))
      && JsString.truthy (specFile ks)
      && isEqualOrParent (Uri.file (default "" (specFile ks))) root
  | _, _ => false
  end.

(** Lines 250-251: forget a spec that could not be used. *)
Definition forget (key : string) (specPath : Uri) (c : SpecCache) : SpecCache :=
  {| pathToKernelSpec := delete key (pathToKernelSpec c);
     cache := match cache c with
              | Some items =>
                  Some (List.filter (fun itemPath => isEqual (kernelSpecFile itemPath) specPath)
                                    items)
              | None => None
              end |}.

(** [getKernelSpec(specPath, cancelToken, interpreter, globalSpecRootPath)].
    The quarantine it starts without awaiting is run to its end, its rejection
    dropped. *)
Definition getKernelSpec (specPath : Uri) (cancelToken : CancellationToken)
    (interp : option PythonEnvironment) (globalSpecRootPath : option Uri)
    (st : SpecCache * World) : option IJupyterKernelSpec * (SpecCache * World) :=
  let '(c, w) := st in
  if JsString.includes (fsPath specPath) oldKernelsSpecFolderName then (None, st) else
  let key := getComparisonKey specPath in
  let c :=
    match pathToKernelSpec c !! key with
    | Some _ => c
    | None =>
        {| pathToKernelSpec :=
             <[key := loadKernelSpec specPath (files w) cancelToken interp]> (pathToKernelSpec c);
           cache := cache c |}
    end in
  match pathToKernelSpec c !! key with
  | None => (None, (c, w))
  | Some kernelSpec' =>
      let shouldDelete := shouldDeleteKernelSpec kernelSpec' globalSpecRootPath in
      match kernelSpec' with
      | Some ks =>
          if negb shouldDelete then (Some ks, (c, w))
          else
            let w := if JsString.truthy (specFile ks)
                     then snd (deleteOldKernelSpec (default "" (specFile ks)) w)
                     else w in
            (None, (forget key specPath c, w))
      | None => (None, (forget key specPath c, w))
      end
  end.

End Memo.

(** ** The listing cache *)

(** A JavaScript [Map] with string keys: entries in insertion order. *)
Module JsMap.

Definition t (V : Type) : Type := list (string * V).

Definition has {V} (m : t V) (k : string) : bool :=
  existsb (fun e => String.eqb (fst e) k) m.

(** [m.set(k, v)]: a present key keeps its place, a new one goes last. *)
Fixpoint set {V} (m : t V) (k : string) (v : V) : t V :=
  match m with
  | [] => [(k, v)]
  | (k', v') :: r => if String.eqb k' k then (k', v) :: r else (k', v') :: set r k v
  end.

Definition values {V} (m : t V) : list V := map snd m.

End JsMap.

(** [Array.prototype.sort(compareFn)]: a stable sort; here by insertion. *)
Module JsArray.

Fixpoint insert {A} (compareFn : A -> A -> Z) (x : A) (l : list A) : list A :=
  match l with
  | [] => [x]
  | y :: r => if (compareFn x y <=? 0)%Z then x :: y :: r
              else y :: insert compareFn x r
  end.

Definition sort {A} (compareFn : A -> A -> Z) (l : list A) : list A :=
  fold_right (insert compareFn) [] l.

End JsArray.

(** Lines 127-133 *)
Definition distinctKernelMetadata (items : list LocalKernelConnectionMetadata)
  : JsMap.t LocalKernelConnectionMetadata :=
  fold_left (fun m kernelSpec' =>
               if negb (JsMap.has m (Kernel.id kernelSpec'))
               then JsMap.set m (Kernel.id kernelSpec') kernelSpec'
               else m)
            items [].

(** Lines 135-145: the comparison of two kernels by display name. *)
Definition compareDisplayNames (a b : LocalKernelConnectionMetadata) : Z :=
  let nameA := JsString.toUpperCase (display_name (Kernel.kernelSpec a)) in
  let nameB := JsString.toUpperCase (display_name (Kernel.kernelSpec b)) in
  if String.eqb nameA nameB then 0%Z
  else if JsString.ltb nameA nameB then (-1)%Z
  else 1%Z.

(** What [listKernelsWithCache] makes of the finder's items. *)
Definition distinctSorted (items : list LocalKernelConnectionMetadata)
  : list LocalKernelConnectionMetadata :=
  JsArray.sort compareDisplayNames (JsMap.values (distinctKernelMetadata items)).

Record ListingSlot := {
  usesPython : bool;
  wasPythonExtInstalled : bool;
  promise : Settled (list LocalKernelConnectionMetadata)
}.

(** Lines 114-125: is the call answered from [kernelSpecCache]? *)
Definition cachedListing (kernelSpecCache : gmap string ListingSlot) (cacheKey : string)
    (ignoreCache isPythonExtensionInstalled : bool) : option ListingSlot :=
  match kernelSpecCache !! cacheKey with
  | Some result =>
      if negb ignoreCache then
        if usesPython result
           && Bool.eqb (wasPythonExtInstalled result) isPythonExtensionInstalled
        then Some result
        else if negb (usesPython result) then Some result
        else None
      else None
  | None => None
  end.

(** [listKernelsWithCache(cacheKey, dependsOnPythonExtension, finder, ignoreCache)];
    [finder] is what the promise that the finder function returns settles to
    (a finder that throws before it returns a promise is not covered), and
    [isPythonExtensionInstalled] what the extension checker answers. *)
Definition listKernelsWithCache (cacheKey : string) (dependsOnPythonExtension : bool)
    (finder : Settled (list LocalKernelConnectionMetadata)) (ignoreCache : bool)
    (isPythonExtensionInstalled : bool) (kernelSpecCache : gmap string ListingSlot)
  : Settled (list LocalKernelConnectionMetadata) * gmap string ListingSlot :=
  match cachedListing kernelSpecCache cacheKey ignoreCache isPythonExtensionInstalled with
  | Some result => (promise result, kernelSpecCache)
  | None =>
      let promise' :=
        match finder with
        | Fulfilled items => Fulfilled (distinctSorted items)
        | Failed ex => Failed ex
        end in
      (promise',
       <[cacheKey := {| usesPython := dependsOnPythonExtension;
                        wasPythonExtInstalled := isPythonExtensionInstalled;
                        promise := promise' |}]> kernelSpecCache)
  end.

(** ** The memento bridge *)

Section Memento.
Context `{Helpers}.

(** [isValidCachedKernel(kernel)] *)
Definition isValidCachedKernel (files' : gmap string FileNode)
    (kernel : LocalKernelConnectionMetadata) : bool :=
  match kernel with
  | startUsingPythonInterpreter _ _ interp =>
      fs.exists_ files' (fsPath (uri interp))
  | startUsingLocalKernelSpec _ ks interp =>
      let r := if JsString.truthy (specFile ks)
               then fs.exists_ files' (fsPath (Uri.file (default "" (specFile ks))))
               else true in
      match (if r then interp else None) with
      | Some i => fs.exists_ files' (fsPath (uri i))
      | None => true
      end
  end.

(** [listKernelsFirstTimeFromMemento(cacheKey)]; [extensionVersion] is
    [this.env.extensionVersion].  The validations run concurrently and the
    valid kernels are collected as they complete: the list is given in the
    order of the stored one, and only its members are meaningful. *)
Definition listKernelsFirstTimeFromMemento (extensionVersion : string) (w : World)
    (cacheKey : string) : list LocalKernelConnectionMetadata :=
  let cache' := default (StoredKernels (Some []) "") (globalState w !! cacheKey) in
  let kernels :=
    match cache' with
    | StoredKernels (Some stored) storedVersion =>
        if String.eqb storedVersion extensionVersion
        then map deserializeKernelConnection stored
        else []
    | _ => []
    end in
  List.filter (isValidCachedKernel (files w)) kernels.

End Memento.

(** ** The path-search cache

    [findKernelSpecsInPath] stores pending promises, so promises are objects
    here: a promise is named by its index in [promises], and the event loop is
    a machine whose events are the calls of the function, the settling of the
    file-system requests it awaits, and cancellations. *)

Inductive SearchItem :=
| InPath (searchPath : Uri)
| InInterpreter (interp : PythonEnvironment) (kernelSearchPath : Uri).

(** Where the body of the search is suspended. *)
Inductive SearchStage :=
| AwaitingExists            (* at [await this.fs.exists(searchPath)] *)
| AwaitingSearchLocal        (* at [await this.fs.searchLocal(...)] *)
| Done (result : Settled (list KernelSpecFileWithContainingInterpreter)).

Record SearchPromise := {
  searchItem : SearchItem;
  cancelToken : nat;
  stage : SearchStage
}.

(** A listener registered with [cancelToken.onCancellationRequested]: it
    guards one cache key and one promise. *)
Record Listener := {
  listensTo : nat;
  guardedKey : string;
  guardedPromise : nat
}.

Record SearchState := {
  findKernelSpecsInPathCache : gmap string nat;
  promises : list SearchPromise;
  listeners : list Listener;
  (** tokens whose [isCancellationRequested] is set *)
  cancellationRequested : list nat;
  (** the calls of [fs.searchLocal], oldest first: the promise on whose behalf
      the glob was issued and the directory searched *)
  searchLocalCalls : list (nat * string)
}.

Definition emptySearchState : SearchState :=
  {| findKernelSpecsInPathCache := ∅; promises := []; listeners := [];
     cancellationRequested := []; searchLocalCalls := [] |}.

Inductive Event :=
| Call (item : SearchItem) (token : nat)
| ExistsSettled (p : nat) (r : Settled bool)
| SearchLocalSettled (p : nat) (r : Settled (list string))
| CancellationRequested (token : nat).

Definition pending (s : SearchStage) : bool :=
  match s with
  | Done _ => false
  | _ => true
  end.

Section Search.
Context `{Helpers}.

Definition cacheKeyOf (item : SearchItem) : string :=
  match item with
  | InPath u => getComparisonKey u
  | InInterpreter i p => getComparisonKey (uri i) +:+ getComparisonKey p
  end.

Definition searchPathOf (item : SearchItem) : Uri :=
  match item with
  | InPath u => u
  | InInterpreter _ p => p
  end.

Definition interpreterOf (item : SearchItem) : option PythonEnvironment :=
  match item with
  | InPath _ => None
  | InInterpreter i _ => Some i
  end.

(** [if (cache.get(cacheKey) === promise) cache.delete(cacheKey)] *)
Definition evictIfCurrent (key : string) (p : nat) (c : gmap string nat)
  : gmap string nat :=
  if decide (c !! key = Some p) then delete key c else c.

Definition setStage (p : nat) (s : SearchStage) (ps : list SearchPromise)
  : list SearchPromise :=
  match ps !! p with
  | Some pr => <[p := {| searchItem := searchItem pr; cancelToken := cancelToken pr;
                         stage := s |}]> ps
  | None => ps
  end.

(** [findKernelSpecsInPath(searchItem, cancelToken)] up to its [return]: the
    promise returned and the state left behind. *)
Definition findKernelSpecsInPath (item : SearchItem) (token : nat) (st : SearchState)
  : nat * SearchState :=
  let cacheKey := cacheKeyOf item in
  match findKernelSpecsInPathCache st !! cacheKey with
  | Some previousPromise => (previousPromise, st)
  | None =>
      let promise' := length (promises st) in
      (promise',
       {| findKernelSpecsInPathCache := <[cacheKey := promise']> (findKernelSpecsInPathCache st);
          promises := promises st ++
                      [{| searchItem := item; cancelToken := token; stage := AwaitingExists |}];
          listeners := listeners st ++
                       [{| listensTo := token; guardedKey := cacheKey;
                           guardedPromise := promise' |}];
          cancellationRequested := cancellationRequested st;
          searchLocalCalls := searchLocalCalls st |})
  end.

(** The promise [p] settles: its [finally] handler disposes the listener, its
    [catch] handler evicts the entry if the promise was rejected.  Both were
    attached inside [findKernelSpecsInPath], before any caller could attach
    its own, so they run first; they are taken together with the settling. *)
Definition settle (p : nat) (pr : SearchPromise)
    (r : Settled (list KernelSpecFileWithContainingInterpreter)) (st : SearchState)
  : SearchState :=
  {| findKernelSpecsInPathCache :=
       match r with
       | Failed _ => evictIfCurrent (cacheKeyOf (searchItem pr)) p
                                    (findKernelSpecsInPathCache st)
       | Fulfilled _ => findKernelSpecsInPathCache st
       end;
     promises := setStage p (Done r) (promises st);
     listeners := List.filter (fun l => negb (guardedPromise l =? p)) (listeners st);
     cancellationRequested := cancellationRequested st;
     searchLocalCalls := searchLocalCalls st |}.

(** The body of the search resumes after [fs.exists]. *)
Definition afterExists (p : nat) (pr : SearchPromise) (r : Settled bool) (st : SearchState)
  : SearchState :=
  match r with
  | Fulfilled true =>
      if existsb (Nat.eqb (cancelToken pr)) (cancellationRequested st)
      then settle p pr (Fulfilled []) st
      else
        {| findKernelSpecsInPathCache := findKernelSpecsInPathCache st;
           promises := setStage p AwaitingSearchLocal (promises st);
           listeners := listeners st;
           cancellationRequested := cancellationRequested st;
           searchLocalCalls :=
             searchLocalCalls st ++ [(p, fsPath (searchPathOf (searchItem pr)))] |}
  | Fulfilled false => settle p pr (Fulfilled []) st
  | Failed ex => settle p pr (Failed ex) st
  end.

(** The body of the search resumes after [fs.searchLocal]. *)
Definition afterSearchLocal (p : nat) (pr : SearchPromise) (r : Settled (list string))
    (st : SearchState) : SearchState :=
  match r with
  | Fulfilled found =>
      settle p pr
        (Fulfilled
           (map (fun item => {| containingInterpreter := interpreterOf (searchItem pr);
                                kernelSpecFile := item |})
                (map (joinPath (searchPathOf (searchItem pr))) found)))
        st
  | Failed ex => settle p pr (Failed ex) st
  end.

(** A token is cancelled: its listeners run.  The event also stands for the
    deferred notification of a listener that was registered on a token
    already cancelled. *)
Definition cancel (token : nat) (st : SearchState) : SearchState :=
  {| findKernelSpecsInPathCache :=
       fold_left (fun c l => if listensTo l =? token
                             then evictIfCurrent (guardedKey l) (guardedPromise l) c
                             else c)
                 (listeners st) (findKernelSpecsInPathCache st);
     promises := promises st;
     listeners := listeners st;
     cancellationRequested := token :: cancellationRequested st;
     searchLocalCalls := searchLocalCalls st |}.

Definition step (st : SearchState) (e : Event) : SearchState :=
  match e with
  | Call item token => snd (findKernelSpecsInPath item token st)
  | ExistsSettled p r =>
      match promises st !! p with
      | Some pr => match stage pr with
                   | AwaitingExists => afterExists p pr r st
                   | _ => st
                   end
      | None => st
      end
  | SearchLocalSettled p r =>
      match promises st !! p with
      | Some pr => match stage pr with
                   | AwaitingSearchLocal => afterSearchLocal p pr r st
                   | _ => st
                   end
      | None => st
      end
  | CancellationRequested token => cancel token st
  end.

Definition run (st : SearchState) (events : list Event) : SearchState :=
  fold_left step events st.

Definition stageOf (st : SearchState) (p : nat) : option SearchStage :=
  stage <$> promises st !! p.

End Search.

(** ** Predicates used in the statements *)

Section Statements.
Context `{Helpers}.

(** The interpreter a spec refers to, if any, is on disk. *)
Definition interpreterAvailable (files' : gmap string FileNode)
    (interp : option PythonEnvironment) (json : IJupyterKernelSpec) : bool :=
  let p := interpreterPathOf interp json in
  negb (JsString.truthy p) || fs.exists_ files' (default "" p).

(** The name a loaded spec has when its launch arguments play no part: the
    interpreter's or the file's name, or else the name of the directory. *)
Definition plainName (specPath : Uri) (interp : option PythonEnvironment)
    (json : IJupyterKernelSpec) : option string :=
  JsString.or_else (nameFor interp json)
                   (Some (path.basename (path.dirname (fsPath specPath)))).

End Statements.

(** [a] comes no later than [b] in the order of upper-cased display names. *)
Definition displayNameLe (a b : LocalKernelConnectionMetadata) : Prop :=
  JsString.ltb (JsString.toUpperCase (display_name (Kernel.kernelSpec b)))
               (JsString.toUpperCase (display_name (Kernel.kernelSpec a))) = false.

(** [k] is the first of [items] with its id. *)
Definition firstWithItsId (items : list LocalKernelConnectionMetadata)
    (k : LocalKernelConnectionMetadata) : Prop :=
  exists pre post, items = pre ++ k :: post /\ ~ In (Kernel.id k) (map Kernel.id pre).

(** The file [f] was there before the quarantine and is gone after it. *)
Definition originalDeleted (f : string) (before after : World) : Prop :=
  is_Some (files before !! f) /\ files after !! f = None.

(** The file [f] has a copy in the quarantine folder after the quarantine. *)
Definition archived (f : string) (before after : World) : Prop :=
  is_Some (files before !! f) /\ files after !! quarantineFile f = files before !! f.

(** The message [deleteOldKernelSpec] logs on success. *)
Definition quarantineMessage (f : string) : string :=
  "Old KernelSpec '" +:+ f +:+ "' deleted and backup stored in "
  +:+ path.join [path.dirname (path.dirname f); oldKernelsSpecFolderName].

Section SearchStatements.
Context `{Helpers}.

(** The states the finder can be in: those the events lead to from the start. *)
Definition reachable (st : SearchState) : Prop :=
  exists events, st = run emptySearchState events.

(** How many globs were issued on behalf of the promise [p]. *)
Definition globsFor (p : nat) (st : SearchState) : nat :=
  length (List.filter (fun c => fst c =? p) (searchLocalCalls st)).

(** What holds of every reachable state: a listener listens to the token of
    the promise it guards; no promise has two globs issued on its behalf, and
    none while it still awaits the existence check. *)
Definition consistent (st : SearchState) : Prop :=
  (forall l, In l (listeners st) ->
     exists pr, promises st !! guardedPromise l = Some pr /\ listensTo l = cancelToken pr)
  /\ NoDup (map fst (searchLocalCalls st))
  /\ (forall c, In c (searchLocalCalls st) ->
        exists pr, promises st !! fst c = Some pr /\ stage pr <> AwaitingExists).

End SearchStatements.

(** ** Sample inputs *)

(** An instance of the imported helpers, to evaluate the model on inputs. *)
Definition sampleHelpers : Helpers :=
  {| getInterpreterKernelSpecName := fun i => "python:" +:+ fsPath (uri i);
     getKernelRegistrationInfo := isRegisteredByVSC;
     getComparisonKey := fsPath;
     isEqualOrParent := fun a b => String.prefix (fsPath b) (fsPath a);
     isEqual := fun a b => String.eqb (fsPath a) (fsPath b);
     joinPath := fun u item => Uri.file (path.join [fsPath u; item]);
     deserializeKernelConnection := fun k => k |}.

Definition neverCancelled : CancellationToken :=
  {| isCancellationRequested := fun _ => false |}.

Definition kernelJson (name' : string) (display_name' : string) (argv' : list string)
  : IJupyterKernelSpec :=
  {| name := Some name'; display_name := display_name'; language := Some "python";
     argv := argv'; metadata := None; specFile := None; interpreterPath := None;
     isRegisteredByVSC := None |}.

Definition python39Json : IJupyterKernelSpec :=
  kernelJson "python3" "Python 3.9"
             ["python"; "-m"; "ipykernel_launcher"; "-f"; "{connection_file}"].

Definition customJson : IJupyterKernelSpec :=
  kernelJson "custom" "My Custom Kernel"
             ["python"; "-m"; "ipykernel_launcher"; "-f"; "{connection_file}"; "--debug"].

Definition sampleFiles : gmap string FileNode :=
  <["/usr/share/jupyter/kernels/python3/kernel.json" := KernelJson python39Json]>
  (<["/usr/share/jupyter/kernels/custom/kernel.json" := KernelJson customJson]>
  (<["/usr/share/jupyter/kernels/__old_vscode_kernelspecs/custom/kernel.json" := KernelJson customJson]>
  (<["/envs/a/bin/python" := Garbage]>
  (<["/envs/b/bin/python" := Garbage]> ∅)))).

(** A world whose file system refuses every copy. *)
Definition copyRefusingWorld : World :=
  {| files := {["/usr/share/jupyter/kernels/custom/kernel.json" := KernelJson customJson]};
     refuses := fun c => match c with Copy _ _ => true | _ => false end;
     journal := []; trace := []; _oldKernelSpecsFolder := None; globalState := ∅ |}.

Definition sampleWorld : World :=
  {| files := sampleFiles; refuses := fun _ => false;
     journal := []; trace := []; _oldKernelSpecsFolder := None; globalState := ∅ |}.

Definition emptySpecCache : SpecCache := {| pathToKernelSpec := ∅; cache := None |}.

Definition envA : PythonEnvironment := {| uri := Uri.file "/envs/a/bin/python" |}.
Definition envB : PythonEnvironment := {| uri := Uri.file "/envs/b/bin/python" |}.

(** A kernel whose spec file and interpreter are both gone from
    [sampleFiles]. *)
Definition staleKernel : LocalKernelConnectionMetadata :=
  startUsingLocalKernelSpec "stale"
    {| name := Some "stale"; display_name := "Stale"; language := Some "python";
       argv := ["python"]; metadata := None;
       specFile := Some "/gone/kernels/stale/kernel.json";
       interpreterPath := Some "/gone/bin/python"; isRegisteredByVSC := None |}
    (Some {| uri := Uri.file "/gone/bin/python" |}).

(** A kernel started from an interpreter that [sampleFiles] has. *)
Definition liveKernel : LocalKernelConnectionMetadata :=
  startUsingPythonInterpreter "live" python39Json envA.

Definition mementoWorld (storedVersion : string) : World :=
  {| files := sampleFiles; refuses := fun _ => false;
     journal := []; trace := []; _oldKernelSpecsFolder := None;
     globalState := {["LOCAL_KERNELS" := StoredKernels (Some [liveKernel; staleKernel])
                                                    storedVersion]} |}.

Definition namedKernel (id' display_name' : string) : LocalKernelConnectionMetadata :=
  startUsingLocalKernelSpec id' (kernelJson id' display_name' ["python"]) None.

(** Three finder items, two of them with the same id. *)
Definition finderItems : list LocalKernelConnectionMetadata :=
  [namedKernel "k2" "beta"; namedKernel "k1" "Alpha"; namedKernel "k2" "aardvark"].

Definition kernelsFolder : SearchItem := InPath (Uri.file "/usr/share/jupyter/kernels").

(** The search of the kernels folder, suspended at its glob. *)
Definition globbing : SearchState :=
  @run sampleHelpers emptySearchState
       [Call kernelsFolder 7; ExistsSettled 0 (Fulfilled true)].

(** ** The rest of the finder *)

(** The getter of [oldKernelSpecsFolder]:
    [this._oldKernelSpecsFolder || this.globalState.get('OLD_KERNEL_SPECS_FOLDER__', '')].
    The memento key is only ever written with a string; a value of another
    shape reads as the default. *)
Definition oldKernelSpecsFolder (w : World) : string :=
  let stored := match globalState w !! "OLD_KERNEL_SPECS_FOLDER__" with
                | Some (StoredString s) => s
                | _ => ""
                end in
  if JsString.truthy (_oldKernelSpecsFolder w)
  then default "" (_oldKernelSpecsFolder w)
  else stored.

(** Helpers that [writeToMementoCache] imports: kernels/helpers and
    kernels/common/commonFinder.  [removeOldCachedItems] is given by what it
    makes of the memento. *)
Class MementoHelpers := {
  serializeKernelConnection : LocalKernelConnectionMetadata -> LocalKernelConnectionMetadata;
  removeOldCachedItems : gmap string MementoValue -> gmap string MementoValue
}.

(** [writeToMementoCache(values, cacheKey)]: the clean-up of old items and
    the write of the blob run concurrently ([Promise.all]); [cleanUpLast]
    tells which of the two takes effect last. *)
Definition writeToMementoCache `{MementoHelpers} (cleanUpLast : bool)
    (extensionVersion : string) (values : list LocalKernelConnectionMetadata)
    (cacheKey : string) (w : World) : World :=
  let serialized := map serializeKernelConnection values in
  let blob := StoredKernels (Some serialized) extensionVersion in
  {| files := files w; refuses := refuses w; journal := journal w; trace := trace w;
     _oldKernelSpecsFolder := _oldKernelSpecsFolder w;
     globalState := if cleanUpLast
                    then removeOldCachedItems (<[cacheKey := blob]> (globalState w))
                    else <[cacheKey := blob]> (removeOldCachedItems (globalState w)) |}.

Section SearchPaths.
Context `{Helpers}.

(** [findKernelSpecsInPaths(paths, cancelToken)] up to its first [await]:
    one call of [findKernelSpecsInPath] per path, in order; the promises they
    return and the state left behind. *)
Definition findKernelSpecsInPaths (paths : list SearchItem) (token : nat)
    (st : SearchState) : list nat * SearchState :=
  fold_left (fun acc searchItem' =>
               let r := findKernelSpecsInPath searchItem' token (snd acc) in
               (fst acc ++ [fst r], snd r))
            paths ([], st).

(** Every promise that has not settled has its listener registered. *)
Definition listenersComplete (st : SearchState) : Prop :=
  forall p pr, promises st !! p = Some pr -> pending (stage pr) = true ->
    In {| listensTo := cancelToken pr; guardedKey := cacheKeyOf (searchItem pr);
          guardedPromise := p |} (listeners st).

End SearchPaths.

(** Every character of [s] satisfies [f]. *)
Fixpoint allChars (f : ascii -> bool) (s : string) : bool :=
  match s with
  | EmptyString => true
  | String c r => f c && allChars f r
  end.

(** The display names that count as default: some text, then [python], one
    white-space character, digits, at most one character that is not a line
    terminator, and digits up to the end. *)
Definition defaultPythonName (s : string) : Prop :=
  exists pre w d1 m d2,
    s = pre +:+ "python" +:+ String w (d1 +:+ m +:+ d2) /\
    Regex.accepts Regex.Whitespace w = true /\
    allChars (Regex.accepts Regex.Digit) d1 = true /\
    allChars (Regex.accepts Regex.Digit) d2 = true /\
    (m = "" \/ exists c, m = String c "" /\ Regex.accepts Regex.AnyChar c = true).

(** The file system and the memento of [w] with the private fields of a
    finder created afresh. *)
Definition afterRestart (w : World) : World :=
  {| files := files w; refuses := refuses w; journal := journal w; trace := trace w;
     _oldKernelSpecsFolder := None; globalState := globalState w |}.

(** More sample inputs. *)

Definition sampleMementoHelpers : MementoHelpers :=
  {| serializeKernelConnection := fun k => k;
     removeOldCachedItems := delete "JUPYTER_LOCAL_KERNELSPECS" |}.

(** A spec registered by the extension itself, in the global kernels folder. *)
Definition registeredJson : IJupyterKernelSpec :=
  {| name := Some "python3-old"; display_name := "Python 3.9"; language := Some "python";
     argv := ["python"; "-m"; "ipykernel_launcher"; "-f"; "{connection_file}"];
     metadata := None; specFile := None; interpreterPath := None;
     isRegisteredByVSC := Some registeredByOldVersionOfExt |}.

Definition registeredWorld : World :=
  {| files := {["/usr/share/jupyter/kernels/python3-old/kernel.json" := KernelJson registeredJson]};
     refuses := fun _ => false;
     journal := []; trace := []; _oldKernelSpecsFolder := None; globalState := ∅ |}.

(** A kernel of another language with launch arguments of its own. *)
Definition rJson : IJupyterKernelSpec :=
  {| name := Some "ir"; display_name := "R"; language := Some "R";
     argv := ["R"; "--slave"; "-e"; "IRkernel::main()"; "--args"; "{connection_file}"];
     metadata := None; specFile := None; interpreterPath := None;
     isRegisteredByVSC := None |}.

Definition rFiles : gmap string FileNode :=
  {["/usr/share/jupyter/kernels/ir/kernel.json" := KernelJson rJson]}.

(** The kernels folder searched with a token that was cancelled beforehand. *)
Definition cancelledEarly : SearchState :=
  @run sampleHelpers emptySearchState [CancellationRequested 7; Call kernelsFolder 7].

(** The search of the kernels folder, fulfilled. *)
Definition searched : SearchState :=
  @run sampleHelpers globbing [SearchLocalSettled 0 (Fulfilled ["python3/kernel.json"])].

(** * Properties *)

(** ** The loader *)

Section LoaderFacts.
Context `{Helpers}.

Lemma interpreterPathOf_metadata interp j1 j2 :
  (match metadata j1 with Some md => interpreter md | None => None end)
  = (match metadata j2 with Some md => interpreter md | None => None end) ->
  interpreterPathOf interp j1 = interpreterPathOf interp j2.
Proof.
  unfold interpreterPathOf. intros E.
  destruct (metadata j1) as [m1|], (metadata j2) as [m2|]; simpl in *;
    try rewrite E; try rewrite <- E; reflexivity.
Qed.

Lemma normalizeMetadata_interpreter specPath j :
  interpreter (normalizeMetadata specPath j)
  = match metadata j with Some md => interpreter md | None => None end.
Proof.
  unfold normalizeMetadata.
  destruct (metadata j) as [md|]; simpl.
  - destruct (JsString.truthy (originalSpecFile md)); reflexivity.
  - reflexivity.
Qed.

Lemma addLaunchArgumentsToName_metadata j :
  metadata (addLaunchArgumentsToName j) = metadata j.
Proof.
  unfold addLaunchArgumentsToName.
  destruct (_ && _ && _); [|reflexivity].
  destruct (customLaunchArguments _); reflexivity.
Qed.

(** What [loadKernelSpec] returns when nothing makes it give up. *)
Lemma loadKernelSpec_returns specPath files' tok interp json :
  JsString.includes (fsPath specPath) oldKernelsSpecFolderName = false ->
  fs.readJson files' (fsPath specPath) = Some json ->
  isCancellationRequested tok 0 = false ->
  isCancellationRequested tok 1 = false ->
  interpreterAvailable files' interp json = true ->
  exists ks,
    loadKernelSpec specPath files' tok interp = Some ks /\
    name ks = JsString.or_else
                (name (addLaunchArgumentsToName (with_name (nameFor interp json) json)))
                (Some (path.basename (path.dirname (fsPath specPath)))).
Proof.
  intros Hold Hread H0 H1 Hav.
  unfold loadKernelSpec. rewrite Hold, Hread, H0, H1.
  set (j1 := addLaunchArgumentsToName (with_name (nameFor interp json) json)).
  set (j2 := with_metadata (Some (normalizeMetadata specPath j1)) j1).
  assert (Hp : interpreterPathOf interp j2 = interpreterPathOf interp json).
  { apply interpreterPathOf_metadata. subst j2. simpl.
    rewrite normalizeMetadata_interpreter. subst j1.
    rewrite addLaunchArgumentsToName_metadata. reflexivity. }
  rewrite Hp. unfold interpreterAvailable in Hav.
  destruct (JsString.truthy (interpreterPathOf interp json)); simpl in *.
  - rewrite Hav. simpl. eexists. split; [reflexivity|]. reflexivity.
  - eexists. split; [reflexivity|]. reflexivity.
Qed.

End LoaderFacts.

Example default_name_matches :
  Regex.matches isDefaultPythonKernelSpecSpecName (JsString.toLowerCase "Python 3.9") = true.
Proof. reflexivity. Qed.

Example custom_name_does_not_match :
  Regex.matches isDefaultPythonKernelSpecSpecName
                (JsString.toLowerCase "My Custom Kernel") = false.
Proof. reflexivity. Qed.

Example patch_version_does_not_match :
  Regex.matches isDefaultPythonKernelSpecSpecName (JsString.toLowerCase "Python 3.10.1") = false.
Proof. reflexivity. Qed.

Example quarantine_path :
  quarantineFile "/usr/share/jupyter/kernels/custom/kernel.json"
  = "/usr/share/jupyter/kernels/__old_vscode_kernelspecs/custom/kernel.json".
Proof. reflexivity. Qed.

Section LoaderClaims.
Context `{Helpers}.

Lemma dotted_name_truthy (base rest : string) :
  JsString.truthy (Some (base +:+ "." +:+ rest)) = true.
Proof. destruct base; reflexivity. Qed.

(** C1, as the code has it: for a spec file whose display name is not a
    default "python <version>" name, whose language is Python and whose argv
    has more than two entries, [loadKernelSpec] returns (unless the path is in
    the quarantine folder, the token is cancelled or the interpreter is gone)
    a record whose name is the base name, then a dot, then the non-standard
    launch arguments, lower-cased and joined by [#]. *)
Theorem loadKernelSpec_custom_launch_name specPath files' tok interp json :
  JsString.includes (fsPath specPath) oldKernelsSpecFolderName = false ->
  fs.readJson files' (fsPath specPath) = Some json ->
  isCancellationRequested tok 0 = false ->
  isCancellationRequested tok 1 = false ->
  interpreterAvailable files' interp json = true ->
  Regex.matches isDefaultPythonKernelSpecSpecName
                (JsString.toLowerCase (display_name json)) = false ->
  language json = Some PYTHON_LANGUAGE ->
  2 < length (argv json) ->
  customLaunchArguments (argv json) <> [] ->
  exists ks,
    loadKernelSpec specPath files' tok interp = Some ks /\
    name ks = Some (JsString.interpolate (nameFor interp json) +:+ "."
                    +:+ JsString.join "#" (customLaunchArguments (argv json))).
Proof.
  intros Hold Hread H0 H1 Hav Hre Hlang Hlen Hargs.
  destruct (loadKernelSpec_returns specPath files' tok interp json) as (ks & Hks & Hname);
    try assumption.
  exists ks. split; [exact Hks|]. rewrite Hname.
  unfold addLaunchArgumentsToName. simpl.
  rewrite Hre, Hlang. simpl.
  apply Nat.ltb_lt in Hlen. rewrite Hlen. simpl.
  destruct (customLaunchArguments (argv json)) as [|a l] eqn:E; [congruence|].
  simpl name. unfold JsString.or_else. rewrite dotted_name_truthy. reflexivity.
Qed.

(** C9: for a spec file whose display name is a default "python <version>"
    name, the record [loadKernelSpec] returns (unless the path is in the
    quarantine folder, the token is cancelled or the interpreter is gone) has
    the plain name: nothing derived from argv is appended. *)
Theorem loadKernelSpec_default_name_unchanged specPath files' tok interp json :
  JsString.includes (fsPath specPath) oldKernelsSpecFolderName = false ->
  fs.readJson files' (fsPath specPath) = Some json ->
  isCancellationRequested tok 0 = false ->
  isCancellationRequested tok 1 = false ->
  interpreterAvailable files' interp json = true ->
  Regex.matches isDefaultPythonKernelSpecSpecName
                (JsString.toLowerCase (display_name json)) = true ->
  exists ks,
    loadKernelSpec specPath files' tok interp = Some ks /\
    name ks = plainName specPath interp json.
Proof.
  intros Hold Hread H0 H1 Hav Hre.
  destruct (loadKernelSpec_returns specPath files' tok interp json) as (ks & Hks & Hname);
    try assumption.
  exists ks. split; [exact Hks|]. rewrite Hname.
  unfold addLaunchArgumentsToName. simpl. rewrite Hre. reflexivity.
Qed.

(** C8: a spec file whose path contains the name of the quarantine folder is
    never loaded: [loadKernelSpec] and [getKernelSpec] return nothing,
    whatever the file holds, and [getKernelSpec] leaves its caches alone. *)
Theorem quarantined_spec_never_loaded specPath :
  JsString.includes (fsPath specPath) oldKernelsSpecFolderName = true ->
  (forall files' tok interp, loadKernelSpec specPath files' tok interp = None) /\
  (forall tok interp root st, getKernelSpec specPath tok interp root st = (None, st)).
Proof.
  intros Hin. split.
  - intros. unfold loadKernelSpec. rewrite Hin. reflexivity.
  - intros tok interp root [c w]. unfold getKernelSpec. rewrite Hin. reflexivity.
Qed.

End LoaderClaims.

Lemma loadKernelSpec_custom_launch_name_witness :
  exists ks,
    @loadKernelSpec sampleHelpers (Uri.file "/usr/share/jupyter/kernels/custom/kernel.json")
                    sampleFiles neverCancelled None = Some ks /\
    name ks = Some "custom.--debug".
Proof.
  apply (@loadKernelSpec_custom_launch_name sampleHelpers
           (Uri.file "/usr/share/jupyter/kernels/custom/kernel.json")
           sampleFiles neverCancelled None customJson);
    first [ reflexivity | vm_compute; lia | discriminate ].
Defined.

(** C1, as the spec words it, fails on its own example: the name loaded for
    "My Custom Kernel" with the extra argument [--debug] ends in [.--debug],
    not in [#--debug]. *)
Lemma loadKernelSpec_hash_suffix_counterexample :
  let loaded := @loadKernelSpec sampleHelpers
                  (Uri.file "/usr/share/jupyter/kernels/custom/kernel.json")
                  sampleFiles neverCancelled None in
  (name <$> loaded) = Some (Some "custom.--debug") /\
  (name <$> loaded) <> Some (Some ("custom" +:+ "#--debug")).
Proof. split; [reflexivity | discriminate]. Qed.

Lemma loadKernelSpec_default_name_unchanged_witness :
  exists ks,
    @loadKernelSpec sampleHelpers (Uri.file "/usr/share/jupyter/kernels/python3/kernel.json")
                    sampleFiles neverCancelled None = Some ks /\
    name ks = Some "python3".
Proof.
  apply (@loadKernelSpec_default_name_unchanged sampleHelpers
           (Uri.file "/usr/share/jupyter/kernels/python3/kernel.json")
           sampleFiles neverCancelled None python39Json); reflexivity.
Defined.

Lemma quarantined_spec_never_loaded_witness :
  @loadKernelSpec sampleHelpers
     (Uri.file "/usr/share/jupyter/kernels/__old_vscode_kernelspecs/custom/kernel.json")
     sampleFiles neverCancelled None = None.
Proof.
  apply (@quarantined_spec_never_loaded sampleHelpers
           (Uri.file "/usr/share/jupyter/kernels/__old_vscode_kernelspecs/custom/kernel.json")).
  reflexivity.
Defined.

(** ** The quarantine *)

Lemma call_run c run w :
  fsnode.call c run w =
  if refuses w c then (Rejected c, issue c w)
  else match run (files w) with
       | Some f => (Returned tt, with_files f (issue c w))
       | None => (Rejected c, issue c w)
       end.
Proof. reflexivity. Qed.

(** C3, as the code has it: [deleteOldKernelSpec] creates the quarantine
    directory, tries the copy, and then deletes the original whatever the copy
    did.  A failed copy is dropped without a log entry and never reaches the
    caller; the only rejections are those of the directory creation (after
    which neither copy nor delete is issued) and of the delete.  The one log
    entry is the success message, written when the delete succeeded. *)
Theorem deleteOldKernelSpec_calls (f : string) (w : World) :
  let d := path.dirname (quarantineFile f) in
  let r := fst (deleteOldKernelSpec f w) in
  let w' := snd (deleteOldKernelSpec f w) in
  (if refuses w (CreateDirectory d)
   then journal w' = journal w ++ [CreateDirectory d]
        /\ r = Rejected (CreateDirectory d)
   else journal w' = journal w ++ [CreateDirectory d; Copy f (quarantineFile f); Delete f]
        /\ (r = Returned tt \/ r = Rejected (Delete f)))
  /\ (forall src dst, r <> Rejected (Copy src dst))
  /\ trace w' = match r with
                | Returned _ => trace w ++ [quarantineMessage f]
                | Rejected _ => trace w
                end.
Proof.
  unfold deleteOldKernelSpec, quarantineFile, quarantineMessage.
  set (dst := path.join [path.join _; _; _]).
  set (d := path.dirname dst).
  unfold mbind, Async_bind, bind, effect, catch_noop, fsnode.createDirectory,
    fsnode.copy, fsnode.delete.
  rewrite !call_run. simpl.
  destruct (refuses w (CreateDirectory d)) eqn:Hd; simpl.
  { repeat split; try reflexivity. intros; discriminate. }
  rewrite !call_run. simpl.
  destruct (refuses w (Copy f dst)) eqn:Hc; simpl;
    [| destruct (<[d:=Directory]> (files w) !! f) eqn:Hf; simpl ];
    rewrite !call_run; simpl;
    (destruct (refuses w (Delete f)) eqn:Hx; simpl;
     [| match goal with
        | |- context [match ?m !! f with _ => _ end] => destruct (m !! f); simpl
        end ]);
    rewrite <- ?app_assoc; simpl;
    (split; [split; [reflexivity | auto] | split; [intros; discriminate | reflexivity]]).
Qed.

(** C3, as the spec words it, fails: when the file system refuses the copy,
    [deleteOldKernelSpec] still deletes the original and returns normally, so
    the original is deleted although it was not archived; the log holds the
    success message only. *)
Lemma deleteOldKernelSpec_deletes_unarchived_counterexample :
  let f := "/usr/share/jupyter/kernels/custom/kernel.json" in
  let r := fst (deleteOldKernelSpec f copyRefusingWorld) in
  let w' := snd (deleteOldKernelSpec f copyRefusingWorld) in
  r = Returned tt /\
  originalDeleted f copyRefusingWorld w' /\
  ~ archived f copyRefusingWorld w' /\
  trace w' = [quarantineMessage f].
Proof.
  cbv zeta. split; [vm_compute; reflexivity|].
  split; [split; [eexists; vm_compute; reflexivity | vm_compute; reflexivity]|].
  split; [|vm_compute; reflexivity].
  intros [_ E]. vm_compute in E. discriminate E.
Qed.

(** ** The per-file memoisation *)

Section MemoFacts.
Context `{Helpers}.

(** A resolved entry answers every call made without a global spec root. *)
Lemma getKernelSpec_cached specPath tok interp c w ks :
  JsString.includes (fsPath specPath) oldKernelsSpecFolderName = false ->
  pathToKernelSpec c !! getComparisonKey specPath = Some (Some ks) ->
  getKernelSpec specPath tok interp None (c, w) = (Some ks, (c, w)).
Proof.
  intros Hold Hc. unfold getKernelSpec. rewrite Hold, Hc. simpl. rewrite Hc.
  reflexivity.
Qed.

(** What a call that finds no entry and returns a spec has done. *)
Lemma getKernelSpec_miss_returns specPath tok interp root c w ks c1 w1 :
  pathToKernelSpec c !! getComparisonKey specPath = None ->
  getKernelSpec specPath tok interp root (c, w) = (Some ks, (c1, w1)) ->
  JsString.includes (fsPath specPath) oldKernelsSpecFolderName = false /\
  loadKernelSpec specPath (files w) tok interp = Some ks /\
  pathToKernelSpec c1 !! getComparisonKey specPath = Some (Some ks).
Proof.
  intros Hmiss. unfold getKernelSpec.
  destruct (JsString.includes _ _); [discriminate|].
  rewrite Hmiss. simpl. rewrite lookup_insert_eq.
  destruct (loadKernelSpec specPath (files w) tok interp) as [ks'|]; [|discriminate].
  destruct (negb _); [|discriminate].
  intros E. injection E as <- <- <-. simpl. rewrite lookup_insert_eq. auto.
Qed.

(** C10: the memoisation of [getKernelSpec] is keyed by the spec path alone.
    When a call for [specPath] with interpreter [i1] found no entry, loaded the
    spec and returned it, the record is the one loaded with [i1], and as long
    as the entry stays, every later call for [specPath] returns that record,
    whatever interpreter and token it is given. *)
Theorem getKernelSpec_memo_ignores_interpreter specPath tok1 i1 root1 c w ks c1 w1 :
  pathToKernelSpec c !! getComparisonKey specPath = None ->
  getKernelSpec specPath tok1 i1 root1 (c, w) = (Some ks, (c1, w1)) ->
  loadKernelSpec specPath (files w) tok1 i1 = Some ks /\
  forall c2 w2,
    pathToKernelSpec c2 !! getComparisonKey specPath
    = pathToKernelSpec c1 !! getComparisonKey specPath ->
    forall tok2 i2,
      getKernelSpec specPath tok2 i2 None (c2, w2) = (Some ks, (c2, w2)).
Proof.
  intros Hmiss Hcall.
  destruct (getKernelSpec_miss_returns _ _ _ _ _ _ _ _ _ Hmiss Hcall) as (Hold & Hload & Hc1).
  split; [exact Hload|].
  intros c2 w2 Hsame tok2 i2. apply getKernelSpec_cached; [exact Hold|].
  rewrite Hsame. exact Hc1.
Qed.

End MemoFacts.

Lemma getKernelSpec_memo_ignores_interpreter_witness :
  let specPath := Uri.file "/usr/share/jupyter/kernels/python3/kernel.json" in
  let first := @getKernelSpec sampleHelpers specPath neverCancelled (Some envA) None
                 (emptySpecCache, sampleWorld) in
  (name <$> fst first) = Some (Some "python:/envs/a/bin/python") /\
  (name <$> fst (@getKernelSpec sampleHelpers specPath neverCancelled (Some envB) None
                   (snd first)))
  = Some (Some "python:/envs/a/bin/python").
Proof.
  cbv zeta. split; [reflexivity|].
  edestruct (@getKernelSpec_memo_ignores_interpreter sampleHelpers
               (Uri.file "/usr/share/jupyter/kernels/python3/kernel.json")
               neverCancelled (Some envA) None emptySpecCache sampleWorld)
    as [_ Hlater].
  - reflexivity.
  - vm_compute. reflexivity.
  - exact (f_equal (fun r => name <$> fst r)
                   (Hlater _ _ eq_refl neverCancelled (Some envB))).
Defined.

(** ** The memento bridge *)

Section MementoFacts.
Context `{Helpers}.

(** C4: a cache blob stored under another extension version is discarded
    whole: [listKernelsFirstTimeFromMemento] returns the empty list, whatever
    kernels the blob holds. *)
Theorem listKernelsFirstTimeFromMemento_version_skew
    extensionVersion w cacheKey kernels storedVersion :
  globalState w !! cacheKey = Some (StoredKernels kernels storedVersion) ->
  storedVersion <> extensionVersion ->
  listKernelsFirstTimeFromMemento extensionVersion w cacheKey = [].
Proof.
  intros Hget Hne. unfold listKernelsFirstTimeFromMemento. rewrite Hget. simpl.
  apply String.eqb_neq in Hne. rewrite Hne.
  destruct kernels; reflexivity.
Qed.

End MementoFacts.

Lemma listKernelsFirstTimeFromMemento_version_skew_witness :
  @listKernelsFirstTimeFromMemento sampleHelpers "1.0.1" (mementoWorld "1.0.0")
     "LOCAL_KERNELS" = [] /\
  In liveKernel (@listKernelsFirstTimeFromMemento sampleHelpers "1.0.0" (mementoWorld "1.0.0")
                   "LOCAL_KERNELS").
Proof.
  split.
  - apply (@listKernelsFirstTimeFromMemento_version_skew sampleHelpers "1.0.1"
             (mementoWorld "1.0.0") "LOCAL_KERNELS" (Some [liveKernel; staleKernel]) "1.0.0").
    + reflexivity.
    + discriminate.
  - vm_compute. left. reflexivity.
Defined.

(** What [isValidCachedKernel] checks, case by case. *)
Lemma isValidCachedKernel_interpreter_only files' id' ks interp :
  isValidCachedKernel files' (startUsingPythonInterpreter id' ks interp)
  = fs.exists_ files' (fsPath (uri interp)).
Proof. reflexivity. Qed.

Lemma isValidCachedKernel_spec_file_on_disk files' id' ks interp :
  JsString.truthy (specFile ks) = false
  \/ fs.exists_ files' (default "" (specFile ks)) = true ->
  isValidCachedKernel files' (startUsingLocalKernelSpec id' ks interp)
  = match interp with
    | Some i => fs.exists_ files' (fsPath (uri i))
    | None => true
    end.
Proof.
  simpl. intros [-> | E]; [reflexivity|].
  destruct (JsString.truthy (specFile ks)); [|reflexivity].
  now rewrite E.
Qed.

Lemma isValidCachedKernel_spec_file_gone files' id' ks interp :
  JsString.truthy (specFile ks) = true ->
  fs.exists_ files' (default "" (specFile ks)) = false ->
  isValidCachedKernel files' (startUsingLocalKernelSpec id' ks interp) = true.
Proof. simpl. intros -> ->. reflexivity. Qed.

(** C7 on a failing input: a cached kernel started from a spec file, whose
    spec file and interpreter are both gone from disk, is found valid by
    [isValidCachedKernel] and is listed by [listKernelsFirstTimeFromMemento]. *)
Theorem isValidCachedKernel_accepts_stale_kernel :
  fs.exists_ sampleFiles "/gone/kernels/stale/kernel.json" = false /\
  fs.exists_ sampleFiles "/gone/bin/python" = false /\
  isValidCachedKernel sampleFiles staleKernel = true /\
  In staleKernel (@listKernelsFirstTimeFromMemento sampleHelpers "1.0.0" (mementoWorld "1.0.0")
                    "LOCAL_KERNELS").
Proof.
  repeat split; try reflexivity. vm_compute. right. left. reflexivity.
Qed.

(** ** The order of strings *)

Module JsStringFacts.
Import JsString.

Lemma code_inj x y : code x = code y -> x = y.
Proof.
  unfold code. intros E.
  rewrite <- (ascii_nat_embedding x), <- (ascii_nat_embedding y). now rewrite E.
Qed.

Lemma ltb_irrefl a : ltb a a = false.
Proof.
  induction a as [|x a IH]; simpl; [reflexivity|].
  rewrite IH, Nat.ltb_irrefl, andb_false_r. reflexivity.
Qed.

Lemma ltb_cons x a y b :
  ltb (String x a) (String y b) = true <->
  code x < code y \/ (code x = code y /\ ltb a b = true).
Proof.
  simpl. rewrite orb_true_iff, andb_true_iff, Nat.ltb_lt, Nat.eqb_eq. reflexivity.
Qed.

Lemma ltb_trans a : forall b c, ltb a b = true -> ltb b c = true -> ltb a c = true.
Proof.
  induction a as [|x a IH]; intros [|y b] [|z c]; try discriminate; try reflexivity.
  rewrite !ltb_cons. intros [Hxy|[Hxy Hab]] [Hyz|[Hyz Hbc]].
  - left; lia.
  - left; lia.
  - left; lia.
  - right. split; [lia|]. eapply IH; eassumption.
Qed.

Lemma ltb_total a : forall b, ltb a b = false -> ltb b a = false -> a = b.
Proof.
  induction a as [|x a IH]; intros [|y b]; simpl; try discriminate; try reflexivity.
  rewrite !orb_false_iff, !andb_false_iff, !Nat.ltb_ge, !Nat.eqb_neq.
  intros [H1 H2] [H3 H4].
  assert (E : code x = code y) by lia.
  f_equal; [apply code_inj, E|].
  apply IH; [destruct H2 | destruct H4]; congruence.
Qed.

Lemma ltb_asym a b : ltb a b = true -> ltb b a = false.
Proof.
  intros Hab. destruct (ltb b a) eqn:Hba; [|reflexivity].
  pose proof (ltb_trans _ _ _ Hab Hba) as E. rewrite ltb_irrefl in E. discriminate.
Qed.

(** "Not after" is transitive. *)
Lemma not_after_trans a b c : ltb b a = false -> ltb c b = false -> ltb c a = false.
Proof.
  intros Hba Hcb. destruct (ltb c a) eqn:Hca; [|reflexivity].
  destruct (ltb a b) eqn:Hab.
  - rewrite (ltb_trans _ _ _ Hca Hab) in Hcb. discriminate.
  - rewrite (ltb_total _ _ Hab Hba) in Hca. congruence.
Qed.

End JsStringFacts.

(** ** Sorting *)

Module JsArrayFacts.
Import JsArray.

Section Sort.
Context {A : Type} (compareFn : A -> A -> Z) (R : A -> A -> Prop).
Hypothesis before : forall x y, (compareFn x y <= 0)%Z -> R x y.
Hypothesis after : forall x y, (0 < compareFn x y)%Z -> R y x.

Lemma insert_perm x l : Permutation (insert compareFn x l) (x :: l).
Proof.
  induction l as [|y r IH]; simpl; [reflexivity|].
  destruct (Z.leb_spec (compareFn x y) 0); [reflexivity|].
  rewrite IH. apply perm_swap.
Qed.

Lemma sort_perm l : Permutation (sort compareFn l) l.
Proof.
  induction l as [|x l IH]; simpl; [reflexivity|].
  unfold sort in *. rewrite insert_perm. now constructor.
Qed.

Lemma insert_sorted x l : Sorted R l -> Sorted R (insert compareFn x l).
Proof.
  induction 1 as [|y r Hs IH Hhd]; simpl.
  - repeat constructor.
  - destruct (Z.leb_spec (compareFn x y) 0) as [Hle|Hgt].
    + constructor; [constructor; assumption|]. constructor. now apply before.
    + constructor; [exact IH|].
      destruct Hhd as [|z r' Hyz]; simpl.
      * constructor. now apply after.
      * destruct (Z.leb_spec (compareFn x z) 0); constructor;
          [now apply after | exact Hyz].
Qed.

Lemma sort_sorted l : Sorted R (sort compareFn l).
Proof.
  induction l as [|x l IH]; simpl; [constructor|]. now apply insert_sorted.
Qed.

End Sort.

End JsArrayFacts.

Lemma compareDisplayNames_before a b :
  (compareDisplayNames a b <= 0)%Z -> displayNameLe a b.
Proof.
  unfold compareDisplayNames, displayNameLe.
  destruct (String.eqb_spec (JsString.toUpperCase (display_name (Kernel.kernelSpec a)))
                            (JsString.toUpperCase (display_name (Kernel.kernelSpec b))))
    as [E|NE].
  - intros _. rewrite E. apply JsStringFacts.ltb_irrefl.
  - destruct (JsString.ltb _ _) eqn:Hlt; [|lia].
    intros _. now apply JsStringFacts.ltb_asym.
Qed.

Lemma compareDisplayNames_after a b :
  (0 < compareDisplayNames a b)%Z -> displayNameLe b a.
Proof.
  unfold compareDisplayNames, displayNameLe.
  destruct (String.eqb _ _); [lia|].
  destruct (JsString.ltb _ _) eqn:Hlt; [lia|]. reflexivity.
Qed.

(** Kernels compare as equal exactly when their upper-cased display names
    are the same. *)
Lemma compareDisplayNames_zero a b :
  compareDisplayNames a b = 0%Z <->
  JsString.toUpperCase (display_name (Kernel.kernelSpec a))
  = JsString.toUpperCase (display_name (Kernel.kernelSpec b)).
Proof.
  unfold compareDisplayNames.
  destruct (String.eqb_spec (JsString.toUpperCase (display_name (Kernel.kernelSpec a)))
                            (JsString.toUpperCase (display_name (Kernel.kernelSpec b))))
    as [E|NE]; [tauto|].
  destruct (JsString.ltb _ _); split; intros; (discriminate || contradiction).
Qed.

Lemma displayNameLe_trans : Relations_1.Transitive displayNameLe.
Proof.
  intros a b c Hab Hbc. unfold displayNameLe in *.
  eapply JsStringFacts.not_after_trans; eassumption.
Qed.

(** ** Distinct kernels *)

Module JsMapFacts.
Import JsMap.

Lemma has_In {V} (m : t V) k : has m k = true <-> In k (map fst m).
Proof.
  unfold has. rewrite existsb_exists, in_map_iff. split.
  - intros (e & He & Hk). apply String.eqb_eq in Hk. eauto.
  - intros (e & Hk & He). exists e. split; [exact He|]. now apply String.eqb_eq.
Qed.

Lemma set_fresh {V} (m : t V) k v : has m k = false -> set m k v = m ++ [(k, v)].
Proof.
  induction m as [|[k' v'] r IH]; simpl; [reflexivity|].
  destruct (String.eqb k' k); simpl; [discriminate|].
  intros Hr. now rewrite IH.
Qed.

End JsMapFacts.

Lemma firstWithItsId_snoc items k v :
  firstWithItsId (items ++ [k]) v <->
  firstWithItsId items v \/ (v = k /\ ~ In (Kernel.id k) (map Kernel.id items)).
Proof.
  unfold firstWithItsId. split.
  - intros (pre & post & E & Hpre).
    destruct post as [|p post _] using rev_ind.
    + apply app_inj_tail in E as [-> ->]. right. split; [reflexivity | exact Hpre].
    + rewrite app_comm_cons, app_assoc in E.
      apply app_inj_tail in E as [-> ->]. left. eauto.
  - intros [(pre & post & -> & Hpre) | [-> Hk]].
    + exists pre, (post ++ [k]). split; [|exact Hpre].
      now rewrite <- app_assoc.
    + exists items, []. split; [reflexivity | exact Hk].
Qed.

(** The map built from the finder's items: its keys are the ids of its
    values, no key occurs twice, it holds the ids of all items, and its values
    are the items that come first with their id. *)
Lemma distinctKernelMetadata_spec items :
  let m := distinctKernelMetadata items in
  map fst m = map Kernel.id (JsMap.values m) /\
  NoDup (map fst m) /\
  (forall i, In i (map fst m) <-> In i (map Kernel.id items)) /\
  (forall v, In v (JsMap.values m) <-> firstWithItsId items v) /\
  length m <= length items.
Proof.
  induction items as [|k items IH] using rev_ind.
  - simpl. split; [reflexivity|]. split; [constructor|].
    split; [tauto|]. split; [|lia].
    intros v. split; [intros []|].
    intros (pre & post & E & _). now destruct pre.
  - cbv zeta in *.
    assert (E : distinctKernelMetadata (items ++ [k])
                = if negb (JsMap.has (distinctKernelMetadata items) (Kernel.id k))
                  then JsMap.set (distinctKernelMetadata items) (Kernel.id k) k
                  else distinctKernelMetadata items).
    { unfold distinctKernelMetadata. now rewrite fold_left_app. }
    rewrite E. clear E.
    destruct IH as (Hkeys & Hnd & Hids & Hfirst & Hlen).
    revert Hkeys Hnd Hids Hfirst Hlen.
    generalize (distinctKernelMetadata items). intros m Hkeys Hnd Hids Hfirst Hlen.
    destruct (JsMap.has m (Kernel.id k)) eqn:Hhas; simpl.
    + apply JsMapFacts.has_In in Hhas.
      repeat split; try assumption.
      * rewrite Hids, map_app, in_app_iff. tauto.
      * rewrite Hids, map_app, in_app_iff. simpl.
        intros [Hi|[<-|[]]]; [exact Hi|]. now apply Hids.
      * rewrite Hfirst, firstWithItsId_snoc. tauto.
      * rewrite firstWithItsId_snoc, Hfirst. intros [Hv|[_ Hk]]; [exact Hv|].
        exfalso. apply Hk. now apply Hids.
      * rewrite length_app. simpl. lia.
    + assert (Hnot : ~ In (Kernel.id k) (map fst m)).
      { intros Hin. apply JsMapFacts.has_In in Hin. congruence. }
      rewrite (JsMapFacts.set_fresh _ _ _ Hhas).
      unfold JsMap.values in *. rewrite !map_app. simpl.
      repeat split.
      * now rewrite Hkeys.
      * apply NoDup_app. split; [exact Hnd|]. split; [|apply NoDup_singleton].
        intros i Hi Hk. apply list_elem_of_In in Hi.
        apply list_elem_of_singleton in Hk. subst i. contradiction.
      * rewrite !in_app_iff, Hids. tauto.
      * rewrite !in_app_iff, Hids. tauto.
      * rewrite in_app_iff, firstWithItsId_snoc, Hfirst. simpl.
        intros [Hv|[<-|[]]]; [now left|]. right. split; [reflexivity|].
        now rewrite <- Hids.
      * rewrite in_app_iff, firstWithItsId_snoc, Hfirst. simpl.
        intros [Hv|[-> _]]; [now left|]. right. now left.
      * rewrite !length_app. simpl. lia.
Qed.

(** C5: when [listKernelsWithCache] runs the finder (no usable cached
    listing) and the finder yields [items], the list returned has no two
    records with the same id, holds exactly the items that come first with
    their id in finder order, is sorted by upper-cased display name (two
    kernels with the same upper-cased name compare as equal), and is no
    longer than [items]. *)
Theorem listKernelsWithCache_distinct_sorted
    cacheKey dependsOnPythonExtension items ignoreCache installed kernelSpecCache :
  cachedListing kernelSpecCache cacheKey ignoreCache installed = None ->
  exists res,
    fst (listKernelsWithCache cacheKey dependsOnPythonExtension (Fulfilled items)
                              ignoreCache installed kernelSpecCache) = Fulfilled res /\
    NoDup (map Kernel.id res) /\
    (forall k, In k res <-> firstWithItsId items k) /\
    StronglySorted displayNameLe res /\
    (forall a b, compareDisplayNames a b = 0%Z <->
                 JsString.toUpperCase (display_name (Kernel.kernelSpec a))
                 = JsString.toUpperCase (display_name (Kernel.kernelSpec b))) /\
    length res <= length items.
Proof.
  intros Hmiss. unfold listKernelsWithCache. rewrite Hmiss. simpl.
  exists (distinctSorted items). split; [reflexivity|].
  unfold distinctSorted.
  destruct (distinctKernelMetadata_spec items) as (Hkeys & Hnd & _ & Hfirst & Hlen).
  cbv zeta in *.
  pose proof (JsArrayFacts.sort_perm compareDisplayNames
                (JsMap.values (distinctKernelMetadata items))) as Hperm.
  repeat split.
  - apply NoDup_ListNoDup.
    eapply Permutation_NoDup; [symmetry; apply Permutation_map, Hperm|].
    apply NoDup_ListNoDup. now rewrite <- Hkeys.
  - intros Hin. apply Hfirst. eapply Permutation_in; [exact Hperm | exact Hin].
  - intros Hk. eapply Permutation_in; [symmetry; exact Hperm|]. now apply Hfirst.
  - apply Sorted_StronglySorted; [exact displayNameLe_trans|].
    apply JsArrayFacts.sort_sorted;
      [exact compareDisplayNames_before | exact compareDisplayNames_after].
  - apply compareDisplayNames_zero.
  - apply compareDisplayNames_zero.
  - rewrite (Permutation_length Hperm). unfold JsMap.values. now rewrite length_map.
Qed.

Lemma listKernelsWithCache_distinct_sorted_witness :
  fst (listKernelsWithCache "local" true (Fulfilled finderItems) false true ∅)
  = Fulfilled [namedKernel "k1" "Alpha"; namedKernel "k2" "beta"] /\
  exists res,
    fst (listKernelsWithCache "local" true (Fulfilled finderItems) false true ∅)
    = Fulfilled res /\
    NoDup (map Kernel.id res) /\
    (forall k, In k res <-> firstWithItsId finderItems k) /\
    StronglySorted displayNameLe res /\
    (forall a b, compareDisplayNames a b = 0%Z <->
                 JsString.toUpperCase (display_name (Kernel.kernelSpec a))
                 = JsString.toUpperCase (display_name (Kernel.kernelSpec b))) /\
    length res <= length finderItems.
Proof.
  split; [reflexivity|].
  apply (listKernelsWithCache_distinct_sorted "local" true finderItems false true ∅).
  reflexivity.
Defined.

(** ** The path-search cache *)

Section SearchFacts.
Context `{Helpers}.

Lemma setStage_lookup_eq p s ps pr :
  ps !! p = Some pr ->
  setStage p s ps !! p
  = Some {| searchItem := searchItem pr; cancelToken := cancelToken pr; stage := s |}.
Proof.
  intros Hp. unfold setStage. rewrite Hp.
  apply list_lookup_insert_eq. now apply lookup_lt_Some in Hp.
Qed.

Lemma setStage_lookup_ne p q s (ps : list SearchPromise) :
  p <> q -> setStage q s ps !! p = ps !! p.
Proof.
  intros Hne. unfold setStage. destruct (ps !! q); [|reflexivity].
  now apply list_lookup_insert_ne.
Qed.

Lemma setStage_length q s (ps : list SearchPromise) :
  length (setStage q s ps) = length ps.
Proof. unfold setStage. destruct (ps !! q); [apply length_insert | reflexivity]. Qed.

Lemma evictIfCurrent_current key p (c : gmap string nat) :
  c !! key = Some p -> evictIfCurrent key p c !! key = None.
Proof.
  intros Hc. unfold evictIfCurrent. rewrite decide_True by exact Hc.
  apply lookup_delete_eq.
Qed.

Lemma evictIfCurrent_other key' q key p (c : gmap string nat) :
  c !! key = Some p -> q <> p -> evictIfCurrent key' q c !! key = Some p.
Proof.
  intros Hc Hne. unfold evictIfCurrent. case_decide as Hq; [|exact Hc].
  destruct (decide (key' = key)) as [->|Hk].
  - congruence.
  - now rewrite lookup_delete_ne.
Qed.

(** The promises and the cache after a promise is settled. *)
Lemma settle_stage p pr r st :
  promises st !! p = Some pr ->
  stageOf (settle p pr r st) p = Some (Done r).
Proof.
  intros Hp. unfold stageOf, settle. simpl.
  now rewrite (setStage_lookup_eq _ _ _ _ Hp).
Qed.

Lemma settle_promises_eq p pr r st :
  promises (settle p pr r st) = setStage p (Done r) (promises st).
Proof. reflexivity. Qed.

Lemma findKernelSpecsInPath_hit item token st p :
  findKernelSpecsInPathCache st !! cacheKeyOf item = Some p ->
  findKernelSpecsInPath item token st = (p, st).
Proof. intros Hc. unfold findKernelSpecsInPath. now rewrite Hc. Qed.

Lemma findKernelSpecsInPath_miss item token st :
  findKernelSpecsInPathCache st !! cacheKeyOf item = None ->
  fst (findKernelSpecsInPath item token st) = length (promises st) /\
  stageOf (snd (findKernelSpecsInPath item token st)) (length (promises st))
  = Some AwaitingExists /\
  searchLocalCalls (snd (findKernelSpecsInPath item token st)) = searchLocalCalls st.
Proof.
  intros Hc. unfold findKernelSpecsInPath, stageOf. rewrite Hc. simpl.
  repeat split. now rewrite lookup_app_r, Nat.sub_diag by lia.
Qed.

(** C2, as the code has it: when the promise stored under a key settles, the
    entry is evicted if the promise was rejected, and a later call for the key
    starts a fresh search; if the promise was fulfilled the entry stays, and
    every later call for the key is answered with that promise and issues no
    search. *)
Theorem settled_search_entry st e p pr :
  promises st !! p = Some pr ->
  pending (stage pr) = true ->
  findKernelSpecsInPathCache st !! cacheKeyOf (searchItem pr) = Some p ->
  let st' := step st e in
  match stageOf st' p with
  | Some (Done (Failed _)) =>
      findKernelSpecsInPathCache st' !! cacheKeyOf (searchItem pr) = None /\
      forall item token,
        cacheKeyOf item = cacheKeyOf (searchItem pr) ->
        fst (findKernelSpecsInPath item token st') = length (promises st') /\
        stageOf (snd (findKernelSpecsInPath item token st')) (length (promises st'))
        = Some AwaitingExists
  | Some (Done (Fulfilled _)) =>
      findKernelSpecsInPathCache st' !! cacheKeyOf (searchItem pr) = Some p /\
      forall item token,
        cacheKeyOf item = cacheKeyOf (searchItem pr) ->
        findKernelSpecsInPath item token st' = (p, st')
  | _ => True
  end.
Proof.
  intros Hp Hpend Hc. cbv zeta.
  assert (Hsettle : forall r,
    match stageOf (settle p pr r st) p with
    | Some (Done (Failed _)) =>
        findKernelSpecsInPathCache (settle p pr r st) !! cacheKeyOf (searchItem pr) = None /\
        forall item token,
          cacheKeyOf item = cacheKeyOf (searchItem pr) ->
          fst (findKernelSpecsInPath item token (settle p pr r st))
          = length (promises (settle p pr r st)) /\
          stageOf (snd (findKernelSpecsInPath item token (settle p pr r st)))
                  (length (promises (settle p pr r st)))
          = Some AwaitingExists
    | Some (Done (Fulfilled _)) =>
        findKernelSpecsInPathCache (settle p pr r st) !! cacheKeyOf (searchItem pr) = Some p /\
        forall item token,
          cacheKeyOf item = cacheKeyOf (searchItem pr) ->
          findKernelSpecsInPath item token (settle p pr r st) = (p, settle p pr r st)
    | _ => True
    end).
  { intros r. rewrite (settle_stage _ _ r _ Hp). destruct r as [v|ex].
    - assert (Hc' : findKernelSpecsInPathCache (settle p pr (Fulfilled v) st)
                    !! cacheKeyOf (searchItem pr) = Some p) by exact Hc.
      split; [exact Hc'|]. intros item token Hk.
      apply findKernelSpecsInPath_hit. now rewrite Hk.
    - assert (Hc' : findKernelSpecsInPathCache (settle p pr (Failed ex) st)
                    !! cacheKeyOf (searchItem pr) = None)
        by (simpl; now apply evictIfCurrent_current).
      split; [exact Hc'|]. intros item token Hk.
      destruct (findKernelSpecsInPath_miss item token (settle p pr (Failed ex) st))
        as (H1 & H2 & _); [now rewrite Hk | auto]. }
  assert (Hsame : forall st', promises st' !! p = Some pr ->
    match stageOf st' p with
    | Some (Done _) => False
    | _ => True
    end).
  { intros st' Hp'. unfold stageOf. rewrite Hp'. simpl.
    destruct (stage pr); [exact I | exact I | discriminate]. }
  assert (Hkeep : forall st', promises st' !! p = Some pr ->
    match stageOf st' p with
    | Some (Done (Failed _)) =>
        findKernelSpecsInPathCache st' !! cacheKeyOf (searchItem pr) = None /\
        forall item token,
          cacheKeyOf item = cacheKeyOf (searchItem pr) ->
          fst (findKernelSpecsInPath item token st') = length (promises st') /\
          stageOf (snd (findKernelSpecsInPath item token st')) (length (promises st'))
          = Some AwaitingExists
    | Some (Done (Fulfilled _)) =>
        findKernelSpecsInPathCache st' !! cacheKeyOf (searchItem pr) = Some p /\
        forall item token,
          cacheKeyOf item = cacheKeyOf (searchItem pr) ->
          findKernelSpecsInPath item token st' = (p, st')
    | _ => True
    end).
  { intros st' Hp'. specialize (Hsame st' Hp').
    destruct (stageOf st' p) as [[| |[?|?]]|]; try exact I; contradiction. }
  destruct e as [item token | q r | q r | token]; unfold step.
  - (* a call *)
    apply Hkeep. unfold findKernelSpecsInPath.
    destruct (findKernelSpecsInPathCache st !! cacheKeyOf item); simpl; [exact Hp|].
    apply lookup_app_l_Some. exact Hp.
  - (* fs.exists settles *)
    destruct (decide (q = p)) as [->|Hne].
    + rewrite Hp. destruct (stage pr) eqn:Hst; try (apply Hkeep; exact Hp).
      unfold afterExists. destruct r as [[|]|ex]; try apply Hsettle.
      destruct (existsb _ _); [apply Hsettle|].
      unfold stageOf. simpl. now rewrite (setStage_lookup_eq _ _ _ _ Hp).
    + destruct (promises st !! q) as [qr|] eqn:Hq; [|apply Hkeep; exact Hp].
      destruct (stage qr); try (apply Hkeep; exact Hp).
      apply Hkeep. unfold afterExists, settle.
      destruct r as [[|]|ex]; try destruct (existsb _ _); simpl;
        rewrite setStage_lookup_ne by congruence; exact Hp.
  - (* fs.searchLocal settles *)
    destruct (decide (q = p)) as [->|Hne].
    + rewrite Hp. destruct (stage pr) eqn:Hst; try (apply Hkeep; exact Hp).
      unfold afterSearchLocal. destruct r as [found|ex]; apply Hsettle.
    + destruct (promises st !! q) as [qr|] eqn:Hq; [|apply Hkeep; exact Hp].
      destruct (stage qr); try (apply Hkeep; exact Hp).
      apply Hkeep. unfold afterSearchLocal, settle.
      destruct r as [found|ex]; simpl;
        rewrite setStage_lookup_ne by congruence; exact Hp.
  - (* a cancellation *)
    apply Hkeep. exact Hp.
Qed.

End SearchFacts.

Section SearchInvariants.
Context `{Helpers}.

Lemma afterExists_promises q qr r st :
  exists s, s <> AwaitingExists /\
            promises (afterExists q qr r st) = setStage q s (promises st).
Proof.
  unfold afterExists, settle.
  destruct r as [[|]|ex]; try destruct (existsb _ _); simpl;
    eexists; (split; [|reflexivity]); discriminate.
Qed.

Lemma afterSearchLocal_promises q qr r st :
  exists s, s <> AwaitingExists /\
            promises (afterSearchLocal q qr r st) = setStage q s (promises st).
Proof.
  unfold afterSearchLocal, settle.
  destruct r as [found|ex]; simpl; eexists; (split; [|reflexivity]); discriminate.
Qed.

(** A step leaves a promise as it is, or moves a pending promise to a later
    stage. *)
Lemma step_promises st e p pr :
  promises st !! p = Some pr ->
  promises (step st e) !! p = Some pr \/
  exists s, promises (step st e) !! p
            = Some {| searchItem := searchItem pr; cancelToken := cancelToken pr;
                      stage := s |}
            /\ pending (stage pr) = true /\ s <> AwaitingExists.
Proof.
  intros Hp. destruct e as [item token | q r | q r | token]; unfold step.
  - left. unfold findKernelSpecsInPath.
    destruct (findKernelSpecsInPathCache st !! cacheKeyOf item); simpl; [exact Hp|].
    now apply lookup_app_l_Some.
  - destruct (promises st !! q) as [qr|] eqn:Hq; [|now left].
    destruct (stage qr) eqn:Hst; try now left.
    destruct (afterExists_promises q qr r st) as (s & Hs & ->).
    destruct (decide (p = q)) as [->|Hne].
    + right. exists s. rewrite (setStage_lookup_eq _ _ _ _ Hq).
      assert (qr = pr) as -> by congruence. rewrite Hst. auto.
    + left. now rewrite setStage_lookup_ne.
  - destruct (promises st !! q) as [qr|] eqn:Hq; [|now left].
    destruct (stage qr) eqn:Hst; try now left.
    destruct (afterSearchLocal_promises q qr r st) as (s & Hs & ->).
    destruct (decide (p = q)) as [->|Hne].
    + right. exists s. rewrite (setStage_lookup_eq _ _ _ _ Hq).
      assert (qr = pr) as -> by congruence. rewrite Hst. auto.
    + left. now rewrite setStage_lookup_ne.
  - now left.
Qed.

(** The item and the token of a promise never change, and a settled promise
    stays settled. *)
Lemma step_promise_static st e p pr :
  promises st !! p = Some pr ->
  exists pr', promises (step st e) !! p = Some pr' /\
              searchItem pr' = searchItem pr /\ cancelToken pr' = cancelToken pr /\
              (pending (stage pr') = true -> pending (stage pr) = true) /\
              (stage pr <> AwaitingExists -> stage pr' <> AwaitingExists).
Proof.
  intros Hp. destruct (step_promises st e p pr Hp) as [E | (s & E & Hpend & Hs)].
  - exists pr. auto.
  - eexists. split; [exact E|]. simpl. auto.
Qed.

Lemma run_promise_static events : forall st p pr,
  promises st !! p = Some pr ->
  exists pr', promises (run st events) !! p = Some pr' /\
              searchItem pr' = searchItem pr /\ cancelToken pr' = cancelToken pr /\
              (pending (stage pr') = true -> pending (stage pr) = true).
Proof.
  induction events as [|e es IH]; intros st p pr Hp; simpl.
  - exists pr. auto.
  - destruct (step_promise_static st e p pr Hp) as (pr1 & H1 & Hi1 & Ht1 & Hp1 & _).
    destruct (IH _ _ _ H1) as (pr2 & H2 & Hi2 & Ht2 & Hp2).
    exists pr2. repeat split; try congruence. auto.
Qed.

Lemma listeners_step st e l :
  In l (listeners (step st e)) ->
  In l (listeners st) \/
  exists item token,
    e = Call item token /\
    findKernelSpecsInPathCache st !! cacheKeyOf item = None /\
    l = {| listensTo := token; guardedKey := cacheKeyOf item;
           guardedPromise := length (promises st) |}.
Proof.
  destruct e as [item token | q r | q r | token]; unfold step.
  - unfold findKernelSpecsInPath.
    destruct (findKernelSpecsInPathCache st !! cacheKeyOf item) eqn:Hc; simpl; [now left|].
    rewrite in_app_iff. simpl. intros [Hl|[<-|[]]]; [now left|]. right. eauto.
  - destruct (promises st !! q) as [qr|]; [|now left].
    destruct (stage qr); try now left.
    unfold afterExists, settle.
    destruct r as [[|]|ex]; try destruct (existsb _ _); simpl;
      rewrite ?filter_In; intuition.
  - destruct (promises st !! q) as [qr|]; [|now left].
    destruct (stage qr); try now left.
    unfold afterSearchLocal, settle.
    destruct r as [found|ex]; simpl; rewrite ?filter_In; intuition.
  - now left.
Qed.

(** A step issues at most one glob, and only for a promise that passes from
    the existence check to the search. *)
Lemma searchLocalCalls_grow st e :
  searchLocalCalls (step st e) = searchLocalCalls st \/
  exists c pr pr',
    searchLocalCalls (step st e) = searchLocalCalls st ++ [c] /\
    promises st !! fst c = Some pr /\ stage pr = AwaitingExists /\
    promises (step st e) !! fst c = Some pr' /\ stage pr' = AwaitingSearchLocal.
Proof.
  destruct e as [item token | q r | q r | token]; unfold step.
  - unfold findKernelSpecsInPath.
    destruct (findKernelSpecsInPathCache st !! cacheKeyOf item); simpl; now left.
  - destruct (promises st !! q) as [qr|] eqn:Hq; [|now left].
    destruct (stage qr) eqn:Hst; try now left.
    unfold afterExists, settle.
    destruct r as [[|]|ex]; try destruct (existsb _ _); simpl; try now left.
    right. eexists (q, _), qr, _. simpl.
    rewrite (setStage_lookup_eq _ _ _ _ Hq). auto.
  - destruct (promises st !! q) as [qr|]; [|now left].
    destruct (stage qr); try now left.
    unfold afterSearchLocal, settle. destruct r as [found|ex]; simpl; now left.
  - now left.
Qed.

Lemma consistent_step st e : consistent st -> consistent (step st e).
Proof.
  intros (HL & HG & HS). split; [|split].
  - intros l Hl. destruct (listeners_step st e l Hl) as [Hold | (item & token & -> & Hc & ->)].
    + destruct (HL l Hold) as (pr & Hp & Ht).
      destruct (step_promise_static st e _ pr Hp) as (pr' & Hp' & _ & Ht' & _).
      exists pr'. split; [exact Hp'|]. congruence.
    + unfold step, findKernelSpecsInPath. rewrite Hc. simpl.
      eexists. split; [now rewrite lookup_app_r, Nat.sub_diag by lia|]. reflexivity.
  - destruct (searchLocalCalls_grow st e)
      as [-> | (c & pr & pr' & -> & Hp & Hst & _)]; [exact HG|].
    rewrite map_app. simpl. apply NoDup_app.
    split; [exact HG|]. split; [|apply NoDup_singleton].
    intros i Hi Hk. apply list_elem_of_singleton in Hk. subst i.
    apply list_elem_of_In, in_map_iff in Hi. destruct Hi as (c0 & Hc0 & Hin0).
    destruct (HS c0 Hin0) as (pr0 & Hp0 & Hst0). rewrite Hc0 in Hp0. congruence.
  - intros c Hc.
    assert (Hold : In c (searchLocalCalls st) ->
                   exists pr, promises (step st e) !! fst c = Some pr
                              /\ stage pr <> AwaitingExists).
    { intros Hin. destruct (HS c Hin) as (pr & Hp & Hst).
      destruct (step_promise_static st e _ pr Hp) as (pr' & Hp' & _ & _ & _ & Hkeep).
      exists pr'. auto. }
    destruct (searchLocalCalls_grow st e)
      as [E | (c' & pr & pr' & E & _ & _ & Hp' & Hst')]; rewrite E in Hc.
    + now apply Hold.
    + apply in_app_iff in Hc. destruct Hc as [Hc | [<- | []]]; [now apply Hold|].
      exists pr'. split; [exact Hp'|]. congruence.
Qed.

Lemma consistent_run events : forall st, consistent st -> consistent (run st events).
Proof.
  induction events as [|e es IH]; intros st Hst; simpl; [exact Hst|].
  apply IH, consistent_step, Hst.
Qed.

Lemma run_app st es1 es2 : run st (es1 ++ es2) = run (run st es1) es2.
Proof. unfold run. apply fold_left_app. Qed.

Lemma reachable_consistent st : reachable st -> consistent st.
Proof.
  intros (events & ->). apply consistent_run.
  split; [|split]; simpl; [intros l [] | constructor | intros c []].
Qed.

Lemma reachable_run st events : reachable st -> reachable (run st events).
Proof.
  intros (history & ->). exists (history ++ events). now rewrite run_app.
Qed.

Lemma no_globs_for p (l : list (nat * string)) :
  ~ In p (map fst l) -> List.filter (fun c => fst c =? p) l = [].
Proof.
  induction l as [|c l IH]; simpl; [reflexivity|].
  intros Hn. destruct (Nat.eqb_spec (fst c) p) as [E|NE]; [tauto|].
  apply IH. tauto.
Qed.

(** No promise ever has more than one glob issued on its behalf. *)
Lemma globsFor_le_1 p st : reachable st -> globsFor p st <= 1.
Proof.
  intros Hr. destruct (reachable_consistent st Hr) as (_ & HG & _).
  unfold globsFor. induction (searchLocalCalls st) as [|c l IH]; simpl; [lia|].
  simpl in HG. apply NoDup_cons in HG as [Hc HG].
  destruct (Nat.eqb_spec (fst c) p) as [E|NE]; simpl; [|now apply IH].
  rewrite no_globs_for; [simpl; lia|].
  subst p. intros Hin. apply Hc. now apply list_elem_of_In.
Qed.

(** A listener of another token leaves the entry of [p] alone. *)
Lemma cancel_keeps_entry token (ls : list Listener) key p : forall (c : gmap string nat),
  c !! key = Some p ->
  (forall l, In l ls -> listensTo l = token -> guardedPromise l <> p) ->
  fold_left (fun c l => if listensTo l =? token
                        then evictIfCurrent (guardedKey l) (guardedPromise l) c
                        else c) ls c !! key = Some p.
Proof.
  induction ls as [|l ls IH]; intros c Hc Hls; simpl; [exact Hc|].
  apply IH; [|intros l' Hl'; apply Hls; now right].
  destruct (Nat.eqb_spec (listensTo l) token) as [E|NE]; [|exact Hc].
  apply evictIfCurrent_other; [exact Hc|]. apply Hls; [now left | exact E].
Qed.

(** One step keeps the entry of a promise that is still pending after it,
    unless the step is the cancellation of the promise's token. *)
Lemma step_keeps_entry st e p pr :
  consistent st ->
  promises st !! p = Some pr ->
  findKernelSpecsInPathCache st !! cacheKeyOf (searchItem pr) = Some p ->
  e <> CancellationRequested (cancelToken pr) ->
  (exists pr', promises (step st e) !! p = Some pr' /\ pending (stage pr') = true) ->
  findKernelSpecsInPathCache (step st e) !! cacheKeyOf (searchItem pr) = Some p.
Proof.
  intros (HL & _ & _) Hp Hc He (pr' & Hp' & Hpend).
  destruct e as [item token | q r | q r | token]; unfold step in *.
  - unfold findKernelSpecsInPath.
    destruct (findKernelSpecsInPathCache st !! cacheKeyOf item) eqn:Hi; simpl; [exact Hc|].
    rewrite lookup_insert_ne; [exact Hc | congruence].
  - destruct (promises st !! q) as [qr|] eqn:Hq; [|exact Hc].
    destruct (stage qr) eqn:Hst; try exact Hc.
    unfold afterExists, settle in *.
    destruct r as [[|]|ex]; try destruct (existsb _ _); simpl in *; try exact Hc.
    destruct (decide (q = p)) as [->|Hne].
    + rewrite (setStage_lookup_eq _ _ _ _ Hq) in Hp'. injection Hp' as <-. discriminate.
    + now apply evictIfCurrent_other.
  - destruct (promises st !! q) as [qr|] eqn:Hq; [|exact Hc].
    destruct (stage qr) eqn:Hst; try exact Hc.
    unfold afterSearchLocal, settle in *.
    destruct r as [found|ex]; simpl in *; try exact Hc.
    destruct (decide (q = p)) as [->|Hne].
    + rewrite (setStage_lookup_eq _ _ _ _ Hq) in Hp'. injection Hp' as <-. discriminate.
    + now apply evictIfCurrent_other.
  - simpl. apply cancel_keeps_entry; [exact Hc|].
    intros l Hl Ht Hg. destruct (HL l Hl) as (lr & Hlr & Hlt).
    rewrite Hg, Hp in Hlr. injection Hlr as <-. congruence.
Qed.

Lemma run_keeps_entry events : forall st p pr,
  consistent st ->
  promises st !! p = Some pr ->
  findKernelSpecsInPathCache st !! cacheKeyOf (searchItem pr) = Some p ->
  Forall (fun e => e <> CancellationRequested (cancelToken pr)) events ->
  (exists pr', promises (run st events) !! p = Some pr' /\ pending (stage pr') = true) ->
  findKernelSpecsInPathCache (run st events) !! cacheKeyOf (searchItem pr) = Some p.
Proof.
  induction events as [|e es IH]; intros st p pr Hst Hp Hc Hev Hend; simpl in *.
  - exact Hc.
  - apply Forall_cons in Hev as [He Hes].
    destruct (step_promise_static st e p pr Hp) as (pr1 & Hp1 & Hi1 & Ht1 & _).
    destruct Hend as (pr' & Hp' & Hpend).
    destruct (run_promise_static es _ _ _ Hp1) as (pr2 & Hp2 & _ & _ & Hback).
    assert (pr2 = pr') as -> by congruence.
    rewrite <- Hi1. apply IH.
    + now apply consistent_step.
    + exact Hp1.
    + rewrite Hi1. apply step_keeps_entry; eauto.
    + now rewrite Ht1.
    + eauto.
Qed.

(** A promise that passes from the existence check to the search has its
    glob issued in that step. *)
Lemma enters_search st e p pr pr' :
  promises st !! p = Some pr -> stage pr = AwaitingExists ->
  promises (step st e) !! p = Some pr' -> stage pr' = AwaitingSearchLocal ->
  In p (map fst (searchLocalCalls (step st e))).
Proof.
  intros Hp Hst Hp' Hst'.
  destruct e as [item token | q r | q r | token]; unfold step in *.
  - unfold findKernelSpecsInPath in *.
    destruct (findKernelSpecsInPathCache st !! cacheKeyOf item); simpl in *;
      [|rewrite (lookup_app_l_Some _ _ _ _ Hp) in Hp']; congruence.
  - destruct (promises st !! q) as [qr|] eqn:Hq; [|congruence].
    destruct (stage qr) eqn:Hq'; try congruence.
    destruct (decide (q = p)) as [->|Hne].
    + unfold afterExists, settle in *.
      destruct r as [[|]|ex]; try destruct (existsb _ _); simpl in *;
        rewrite (setStage_lookup_eq _ _ _ _ Hq) in Hp'; injection Hp' as <-;
        try discriminate.
      rewrite map_app, in_app_iff. right. now left.
    + unfold afterExists, settle in *.
      destruct r as [[|]|ex]; try destruct (existsb _ _); simpl in *;
        rewrite setStage_lookup_ne in Hp' by congruence; congruence.
  - destruct (promises st !! q) as [qr|] eqn:Hq; [|congruence].
    destruct (stage qr) eqn:Hq'; try congruence.
    destruct (decide (q = p)) as [->|Hne]; [congruence|].
    unfold afterSearchLocal, settle in *.
    destruct r as [found|ex]; simpl in *;
      rewrite setStage_lookup_ne in Hp' by congruence; congruence.
  - simpl in *. congruence.
Qed.

(** Every promise suspended at the search has had its glob issued. *)
Lemma searching_has_glob events : forall st,
  (forall p pr, promises st !! p = Some pr -> stage pr = AwaitingSearchLocal ->
                In p (map fst (searchLocalCalls st))) ->
  forall p pr, promises (run st events) !! p = Some pr -> stage pr = AwaitingSearchLocal ->
               In p (map fst (searchLocalCalls (run st events))).
Proof.
  induction events as [|e es IH]; intros st Hst; simpl; [exact Hst|].
  apply IH. intros p pr' Hp' Hst'.
  destruct (decide (p < length (promises st))) as [Hlt|Hge].
  - destruct (lookup_lt_is_Some_2 _ _ Hlt) as (pr & Hp).
    destruct (step_promises st e p pr Hp) as [E | (s & E & Hpend & _)].
    + assert (pr' = pr) as -> by congruence.
      specialize (Hst p pr Hp Hst').
      destruct (searchLocalCalls_grow st e) as [-> | (c & _ & _ & -> & _)]; [exact Hst|].
      rewrite map_app, in_app_iff. now left.
    + destruct (stage pr) eqn:Hs; [| |discriminate].
      * exact (enters_search st e p pr pr' Hp Hs Hp' Hst').
      * specialize (Hst p pr Hp Hs).
        destruct (searchLocalCalls_grow st e) as [-> | (c & _ & _ & -> & _)]; [exact Hst|].
        rewrite map_app, in_app_iff. now left.
  - (* a promise created by this step awaits the existence check *)
    exfalso. destruct e as [item token | q r | q r | token]; unfold step in Hp'.
    + unfold findKernelSpecsInPath in Hp'.
      destruct (findKernelSpecsInPathCache st !! cacheKeyOf item); simpl in Hp'.
      * apply lookup_lt_Some in Hp'. lia.
      * destruct (decide (p = length (promises st))) as [->|Hne].
        -- rewrite lookup_app_r, Nat.sub_diag in Hp' by lia.
           injection Hp' as <-. discriminate.
        -- apply lookup_lt_Some in Hp'. rewrite length_app in Hp'. simpl in Hp'. lia.
    + apply lookup_lt_Some in Hp'.
      destruct (promises st !! q) as [qr|]; [|lia].
      destruct (stage qr); try lia.
      destruct (afterExists_promises q qr r st) as (s & _ & E).
      rewrite E, setStage_length in Hp'. lia.
    + apply lookup_lt_Some in Hp'.
      destruct (promises st !! q) as [qr|]; [|lia].
      destruct (stage qr); try lia.
      destruct (afterSearchLocal_promises q qr r st) as (s & _ & E).
      rewrite E, setStage_length in Hp'. lia.
    + apply lookup_lt_Some in Hp'. simpl in Hp'. lia.
Qed.

Lemma globsFor_ge_1 p st : In p (map fst (searchLocalCalls st)) -> 1 <= globsFor p st.
Proof.
  unfold globsFor. induction (searchLocalCalls st) as [|c l IH]; simpl; [intros []|].
  destruct (Nat.eqb_spec (fst c) p) as [E|NE]; simpl; [lia|].
  intros [Hc|Hl]; [contradiction | now apply IH].
Qed.

(** A promise suspended at the search has exactly one glob to its name. *)
Lemma globsFor_searching p st :
  reachable st -> stageOf st p = Some AwaitingSearchLocal -> globsFor p st = 1.
Proof.
  intros Hr Hs. pose proof (globsFor_le_1 p st Hr) as Hle.
  destruct Hr as (history & ->). unfold stageOf in Hs.
  destruct (promises (run emptySearchState history) !! p) as [pr|] eqn:Hp; [|discriminate].
  injection Hs as Hs.
  pose proof (searching_has_glob history emptySearchState) as Hin.
  assert (Hempty : forall q qr, promises emptySearchState !! q = Some qr ->
                                stage qr = AwaitingSearchLocal ->
                                In q (map fst (searchLocalCalls emptySearchState))).
  { intros q qr Hq. simpl in Hq. rewrite lookup_nil in Hq. discriminate. }
  specialize (Hin Hempty p pr Hp Hs).
  apply globsFor_ge_1 in Hin. lia.
Qed.

(** Once a promise has left the existence check, no glob is ever issued on
    its behalf again. *)
Lemma globsFor_step_settled st e p pr :
  promises st !! p = Some pr -> stage pr <> AwaitingExists ->
  globsFor p (step st e) = globsFor p st.
Proof.
  intros Hp Hst. unfold globsFor.
  destruct (searchLocalCalls_grow st e) as [-> | (c & qr & qr' & -> & Hq & Hq' & _)];
    [reflexivity|].
  rewrite List.filter_app, length_app. simpl.
  destruct (Nat.eqb_spec (fst c) p) as [E|NE]; simpl; [|lia].
  rewrite E, Hp in Hq. injection Hq as <-. contradiction.
Qed.

Lemma globsFor_run_settled p events : forall st pr,
  promises st !! p = Some pr -> stage pr <> AwaitingExists ->
  globsFor p (run st events) = globsFor p st.
Proof.
  induction events as [|e es IH]; intros st pr Hp Hst; simpl; [reflexivity|].
  destruct (step_promise_static st e p pr Hp) as (pr1 & Hp1 & _ & _ & _ & Hkeep).
  rewrite (IH _ pr1 Hp1 (Hkeep Hst)). now apply (globsFor_step_settled st e p pr).
Qed.

(** A promise that awaits the existence check has no glob to its name. *)
Lemma globsFor_awaiting p st pr :
  consistent st -> promises st !! p = Some pr -> stage pr = AwaitingExists ->
  globsFor p st = 0.
Proof.
  intros (_ & _ & HS) Hp Hst. unfold globsFor. rewrite no_globs_for; [reflexivity|].
  intros Hin. apply in_map_iff in Hin as (c & <- & Hc).
  destruct (HS c Hc) as (pr0 & Hp0 & Hst0). congruence.
Qed.

(** What the answer of the existence check decides: one glob when the
    directory exists and the token is not cancelled, none otherwise. *)
Lemma globsFor_exists_step st p pr r :
  promises st !! p = Some pr -> stage pr = AwaitingExists ->
  globsFor p (step st (ExistsSettled p r))
  = globsFor p st
    + match r with
      | Fulfilled true =>
          if existsb (Nat.eqb (cancelToken pr)) (cancellationRequested st) then 0 else 1
      | _ => 0
      end /\
  exists pr', promises (step st (ExistsSettled p r)) !! p = Some pr' /\
              stage pr' <> AwaitingExists.
Proof.
  intros Hp Hst. unfold step. rewrite Hp, Hst. unfold afterExists, globsFor.
  destruct r as [[|]|ex]; try destruct (existsb _ _);
    try (rewrite settle_promises_eq, (setStage_lookup_eq _ _ _ _ Hp); simpl;
         split; [lia|]; eexists; split; [reflexivity|]; discriminate).
  simpl. rewrite (setStage_lookup_eq _ _ _ _ Hp), List.filter_app, length_app. simpl.
  rewrite Nat.eqb_refl. simpl. split; [reflexivity|].
  eexists; split; [reflexivity|]; discriminate.
Qed.

(** C6, as the code has it: when a call starts a search for a key with a
    token that is not cancelled, neither before the call nor afterwards, a
    second call for the same key made while the promise is pending returns
    that very promise and issues no file-system request of its own.  No
    promise ever has more than one glob issued on its behalf: it has none
    while it awaits the existence check, one while its search is under way,
    and what the existence check answers decides it for good: one glob when
    the directory exists and the token is not cancelled at that moment, none
    when the directory does not exist, the check fails, or the token is
    cancelled. *)
Theorem concurrent_calls_share_search st item1 token1 events item2 token2 :
  reachable st ->
  findKernelSpecsInPathCache st !! cacheKeyOf item1 = None ->
  ~ In token1 (cancellationRequested st) ->
  cacheKeyOf item2 = cacheKeyOf item1 ->
  Forall (fun e => e <> CancellationRequested token1) events ->
  let p1 := fst (findKernelSpecsInPath item1 token1 st) in
  let st1 := snd (findKernelSpecsInPath item1 token1 st) in
  let st2 := run st1 events in
  (exists s, stageOf st2 p1 = Some s /\ pending s = true) ->
  findKernelSpecsInPath item2 token2 st2 = (p1, st2) /\
  (forall more,
     let st3 := run st2 (Call item2 token2 :: more) in
     globsFor p1 st3 <= 1 /\
     (stageOf st3 p1 = Some AwaitingExists -> globsFor p1 st3 = 0) /\
     (stageOf st3 p1 = Some AwaitingSearchLocal -> globsFor p1 st3 = 1)) /\
  (forall before r later,
     let sa := run st1 before in
     stageOf sa p1 = Some AwaitingExists ->
     globsFor p1 (run (step sa (ExistsSettled p1 r)) later)
     = match r with
       | Fulfilled true =>
           if existsb (Nat.eqb token1) (cancellationRequested sa) then 0 else 1
       | _ => 0
       end).
Proof.
  intros Hr Hmiss Hlive Hkey Hev. cbv zeta. intros (s & Hs & Hpend).
  assert (Hstep : snd (findKernelSpecsInPath item1 token1 st) = step st (Call item1 token1))
    by reflexivity.
  set (pr1 := {| searchItem := item1; cancelToken := token1; stage := AwaitingExists |}).
  assert (Hp1 : promises (step st (Call item1 token1)) !! length (promises st) = Some pr1).
  { unfold step, findKernelSpecsInPath. rewrite Hmiss. simpl.
    now rewrite lookup_app_r, Nat.sub_diag by lia. }
  assert (Hc1 : findKernelSpecsInPathCache (step st (Call item1 token1))
                !! cacheKeyOf (searchItem pr1) = Some (length (promises st))).
  { unfold step, findKernelSpecsInPath. rewrite Hmiss. simpl. apply lookup_insert_eq. }
  assert (Hfst : fst (findKernelSpecsInPath item1 token1 st) = length (promises st)).
  { unfold findKernelSpecsInPath. now rewrite Hmiss. }
  rewrite Hfst, Hstep in *.
  assert (Hr1 : reachable (step st (Call item1 token1))).
  { apply (reachable_run st [Call item1 token1]), Hr. }
  split; [|split].
  - apply findKernelSpecsInPath_hit. rewrite Hkey.
    apply (run_keeps_entry events _ _ pr1); auto.
    + now apply reachable_consistent.
    + unfold stageOf in Hs.
      destruct (promises (run (step st (Call item1 token1)) events) !! length (promises st))
        as [pr'|]; [|discriminate].
      exists pr'. split; [reflexivity|]. simpl in Hs. congruence.
  - intros more.
    assert (Hr3 : reachable (run (run (step st (Call item1 token1)) events)
                                 (Call item2 token2 :: more))).
    { apply (reachable_run _ (Call item2 token2 :: more)). now apply reachable_run. }
    split; [now apply globsFor_le_1|]. split; [|now apply globsFor_searching].
    unfold stageOf. intros Hst3.
    destruct (promises (run (run (step st (Call item1 token1)) events)
                            (Call item2 token2 :: more)) !! length (promises st))
      as [pr3|] eqn:Hp3; [|discriminate].
    injection Hst3 as Hst3.
    apply (globsFor_awaiting _ _ pr3); [now apply reachable_consistent | exact Hp3 | exact Hst3].
  - intros before r later. unfold stageOf. intros Hsa.
    destruct (run_promise_static before _ _ _ Hp1) as (pra & Hpa & _ & Hta & _).
    rewrite Hpa in Hsa. injection Hsa as Hsa. simpl in Hta.
    destruct (globsFor_exists_step _ _ pra r Hpa Hsa) as (Hcount & prb & Hpb & Hstb).
    rewrite (globsFor_run_settled _ later _ prb Hpb Hstb), Hcount, Hta.
    rewrite (globsFor_awaiting _ _ pra); [reflexivity | | exact Hpa | exact Hsa].
    apply reachable_consistent. now apply reachable_run.
Qed.

End SearchInvariants.

Lemma settled_search_entry_witness :
  findKernelSpecsInPathCache
    (@step sampleHelpers globbing (SearchLocalSettled 0 (Failed "EACCES")))
    !! "/usr/share/jupyter/kernels" = None /\
  findKernelSpecsInPathCache
    (@step sampleHelpers globbing (SearchLocalSettled 0 (Fulfilled ["python3/kernel.json"])))
    !! "/usr/share/jupyter/kernels" = Some 0.
Proof.
  split.
  - pose proof (@settled_search_entry sampleHelpers globbing
                  (SearchLocalSettled 0 (Failed "EACCES")) 0
                  {| searchItem := kernelsFolder; cancelToken := 7;
                     stage := AwaitingSearchLocal |}
                  eq_refl eq_refl eq_refl) as W.
    destruct W as [W _]. exact W.
  - pose proof (@settled_search_entry sampleHelpers globbing
                  (SearchLocalSettled 0 (Fulfilled ["python3/kernel.json"])) 0
                  {| searchItem := kernelsFolder; cancelToken := 7;
                     stage := AwaitingSearchLocal |}
                  eq_refl eq_refl eq_refl) as W.
    destruct W as [W _]. exact W.
Defined.

(** C2, as the spec words it, fails: after the search promise of the kernels
    folder is fulfilled, its entry is still in the cache, and a later call for
    the same key is answered with the old promise and issues no glob. *)
Lemma fulfilled_search_stays_cached_counterexample :
  let st := @run sampleHelpers emptySearchState
              [Call kernelsFolder 7; ExistsSettled 0 (Fulfilled true);
               SearchLocalSettled 0 (Fulfilled ["python3/kernel.json"])] in
  (exists found, @stageOf st 0 = Some (Done (Fulfilled found))) /\
  findKernelSpecsInPathCache st !! @cacheKeyOf sampleHelpers kernelsFolder = Some 0 /\
  findKernelSpecsInPathCache st !! @cacheKeyOf sampleHelpers kernelsFolder <> None /\
  @findKernelSpecsInPath sampleHelpers kernelsFolder 8 st = (0, st) /\
  searchLocalCalls (@run sampleHelpers st [Call kernelsFolder 8])
  = [(0, "/usr/share/jupyter/kernels")].
Proof.
  cbv zeta. split; [eexists; reflexivity|].
  split; [reflexivity|]. split; [discriminate|]. split; reflexivity.
Qed.

Lemma concurrent_calls_share_search_witness :
  let st1 := @run sampleHelpers emptySearchState [Call kernelsFolder 7] in
  let st2 := @run sampleHelpers st1 [ExistsSettled 0 (Fulfilled true)] in
  @findKernelSpecsInPath sampleHelpers kernelsFolder 8 st2 = (0, st2) /\
  @globsFor 0 (@run sampleHelpers st2
                 [Call kernelsFolder 8;
                  SearchLocalSettled 0 (Fulfilled ["python3/kernel.json"])]) <= 1 /\
  @globsFor 0 (@run sampleHelpers st1
                 [Call kernelsFolder 8; ExistsSettled 0 (Fulfilled false)]) = 0.
Proof.
  cbv zeta.
  destruct (@concurrent_calls_share_search sampleHelpers emptySearchState
              kernelsFolder 7 [ExistsSettled 0 (Fulfilled true)] kernelsFolder 8)
    as (Hsame & Hglobs & Hdecides).
  - exists []. reflexivity.
  - reflexivity.
  - simpl. exact (fun absurd => absurd).
  - reflexivity.
  - repeat constructor; discriminate.
  - exists AwaitingSearchLocal. split; reflexivity.
  - split; [exact Hsame|]. split.
    + exact (proj1 (Hglobs [SearchLocalSettled 0 (Fulfilled ["python3/kernel.json"])])).
    + exact (Hdecides [Call kernelsFolder 8] (Fulfilled false) [] eq_refl).
Defined.

(** C6, as the spec words it, fails in two ways.  When the directory does not
    exist, two calls cause no glob at all.  When the token of the first call
    is cancelled between the calls, the second call gets a new promise while
    the first is still pending, and two globs are issued for the one key. *)
Lemma concurrent_calls_glob_count_counterexample :
  (let st := @run sampleHelpers emptySearchState
               [Call kernelsFolder 7; Call kernelsFolder 8;
                ExistsSettled 0 (Fulfilled false)] in
   @stageOf st 0 = Some (Done (Fulfilled [])) /\ searchLocalCalls st = []) /\
  (let st := @run sampleHelpers emptySearchState
               [Call kernelsFolder 7; ExistsSettled 0 (Fulfilled true);
                CancellationRequested 7] in
   @stageOf st 0 = Some AwaitingSearchLocal /\
   fst (@findKernelSpecsInPath sampleHelpers kernelsFolder 8 st) = 1 /\
   searchLocalCalls (@run sampleHelpers st
                       [Call kernelsFolder 8; ExistsSettled 1 (Fulfilled true)])
   = [(0, "/usr/share/jupyter/kernels"); (1, "/usr/share/jupyter/kernels")]).
Proof. cbv zeta. repeat split; reflexivity. Qed.

(** * Further properties *)

(** ** The loader *)

Section LoaderMore.
Context `{Helpers}.

Lemma interpreterPathOf_loaded specPath interp n json :
  let j1 := addLaunchArgumentsToName (with_name n json) in
  interpreterPathOf interp (with_metadata (Some (normalizeMetadata specPath j1)) j1)
  = interpreterPathOf interp json.
Proof.
  cbv zeta. apply interpreterPathOf_metadata. simpl.
  rewrite normalizeMetadata_interpreter, addLaunchArgumentsToName_metadata. reflexivity.
Qed.

Lemma loadKernelSpec_is_Some specPath files' tok interp :
  is_Some (loadKernelSpec specPath files' tok interp) <->
  JsString.includes (fsPath specPath) oldKernelsSpecFolderName = false /\
  isCancellationRequested tok 0 = false /\
  isCancellationRequested tok 1 = false /\
  exists json, fs.readJson files' (fsPath specPath) = Some json /\
               interpreterAvailable files' interp json = true.
Proof.
  split.
  - unfold loadKernelSpec.
    destruct (JsString.includes _ _); [intros [? ?]; discriminate|].
    destruct (fs.readJson files' (fsPath specPath)) as [json|]; [|intros [? ?]; discriminate].
    destruct (isCancellationRequested tok 0); [intros [? ?]; discriminate|].
    destruct (isCancellationRequested tok 1); [intros [? ?]; discriminate|].
    rewrite interpreterPathOf_loaded. intros Hsome.
    repeat split. exists json. split; [reflexivity|].
    unfold interpreterAvailable.
    destruct (JsString.truthy (interpreterPathOf interp json)); [|reflexivity].
    destruct (fs.exists_ files' _); [reflexivity|].
    simpl in Hsome. destruct Hsome; discriminate.
  - intros (Hold & H0 & H1 & json & Hread & Hav).
    destruct (loadKernelSpec_returns specPath files' tok interp json) as (ks & -> & _);
      eauto.
Qed.

(** For a spec file that is missing, is not valid JSON, or holds a
    well-formed spec (the files of the model), [loadKernelSpec] returns a
    record exactly when the path is outside the quarantine folder, the file
    parses, the token is not cancelled at either read, and the interpreter the
    spec refers to (if any) is on disk. *)
Theorem loadKernelSpec_returns_iff specPath files' tok interp :
  is_Some (loadKernelSpec specPath files' tok interp) <->
  JsString.includes (fsPath specPath) oldKernelsSpecFolderName = false /\
  isCancellationRequested tok 0 = false /\
  isCancellationRequested tok 1 = false /\
  exists json, fs.readJson files' (fsPath specPath) = Some json /\
               interpreterAvailable files' interp json = true.
Proof. apply loadKernelSpec_is_Some. Qed.

(** When the launch arguments play no part (the language is not Python, argv
    has at most two entries, or every argument after the first is a standard
    one), a loaded record has the plain name, whatever its display name. *)
Theorem loadKernelSpec_plain_name specPath files' tok interp json ks :
  fs.readJson files' (fsPath specPath) = Some json ->
  loadKernelSpec specPath files' tok interp = Some ks ->
  isPythonLanguage (language json) = false \/ length (argv json) <= 2
  \/ customLaunchArguments (argv json) = [] ->
  name ks = plainName specPath interp json.
Proof.
  intros Hread Hks Hcase.
  assert (Hsome : is_Some (loadKernelSpec specPath files' tok interp)) by eauto.
  apply loadKernelSpec_is_Some in Hsome as (Hold & H0 & H1 & json' & Hread' & Hav).
  assert (json' = json) as -> by congruence.
  destruct (loadKernelSpec_returns specPath files' tok interp json) as (ks' & Hks' & Hname);
    try assumption.
  assert (ks' = ks) as -> by congruence.
  rewrite Hname. unfold addLaunchArgumentsToName, plainName. simpl.
  destruct Hcase as [Hl | [Hlen | Hargs]].
  - rewrite Hl, andb_false_r. reflexivity.
  - apply Nat.ltb_ge in Hlen. rewrite Hlen, andb_false_r. reflexivity.
  - rewrite Hargs. destruct (_ && _ && _); reflexivity.
Qed.

Lemma exists_insert_same (files' : gmap string FileNode) k a b q :
  fs.exists_ (<[k := a]> files') q = fs.exists_ (<[k := b]> files') q.
Proof.
  unfold fs.exists_. destruct (decide (k = q)) as [->|Hne].
  - rewrite !lookup_insert_eq. reflexivity.
  - rewrite !lookup_insert_ne by exact Hne. reflexivity.
Qed.

(** When an interpreter is supplied, the name written in the spec file has
    no effect on the record loaded. *)
Theorem loadKernelSpec_interpreter_overrides_name specPath files' tok i json n :
  loadKernelSpec specPath (<[fsPath specPath := KernelJson (with_name n json)]> files')
                 tok (Some i)
  = loadKernelSpec specPath (<[fsPath specPath := KernelJson json]> files') tok (Some i).
Proof.
  unfold loadKernelSpec, fs.readJson. rewrite !lookup_insert_eq.
  destruct (JsString.includes _ _); [reflexivity|].
  destruct (isCancellationRequested tok 0); [reflexivity|].
  destruct (isCancellationRequested tok 1); [reflexivity|].
  change (with_name (nameFor (Some i) (with_name n json)) (with_name n json))
    with (with_name (nameFor (Some i) json) json).
  rewrite (exists_insert_same files' (fsPath specPath)
             (KernelJson (with_name n json)) (KernelJson json)).
  reflexivity.
Qed.

Lemma keep_or_default_idem (a : option string) (x : string) :
  (if JsString.truthy (if JsString.truthy a then a else Some x)
   then (if JsString.truthy a then a else Some x) else Some x)
  = (if JsString.truthy a then a else Some x).
Proof.
  destruct (JsString.truthy a) eqn:E; [now rewrite E|].
  destruct (JsString.truthy (Some x)); reflexivity.
Qed.

(** Normalising the metadata of a spec twice is the same as normalising it
    once; after it the [vscode] record is there and the legacy top-level
    [originalSpecFile] is gone or empty. *)
Theorem normalizeMetadata_idempotent specPath json :
  let md := normalizeMetadata specPath json in
  normalizeMetadata specPath (with_metadata (Some md) json) = md /\
  is_Some (vscode md) /\
  JsString.truthy (originalSpecFile md) = false.
Proof.
  cbv zeta. unfold normalizeMetadata. simpl.
  destruct (metadata json) as [[vs im leg]|]; simpl.
  - destruct (JsString.truthy leg) eqn:Hleg; simpl;
      rewrite Hleg; destruct vs as [[sf dn]|]; simpl;
      rewrite ?keep_or_default_idem;
      repeat match goal with
             | |- context [if ?b then ?x else ?x] => destruct b
             end; eauto.
  - repeat match goal with
           | |- context [if ?b then ?x else ?x] => destruct b
           end; eauto.
Qed.

End LoaderMore.

(** ** The default display names *)

Module RegexFacts.
Import Regex.

Lemma append_nil_l (t : string) : "" +:+ t = t.
Proof. reflexivity. Qed.

Lemma append_cons c (s t : string) : String c s +:+ t = String c (s +:+ t).
Proof. reflexivity. Qed.

Lemma append_empty_r (s : string) : s +:+ "" = s.
Proof.
  induction s as [|c s IH]; [reflexivity|]. now rewrite append_cons, IH.
Qed.

Lemma append_is_empty (a b : string) : "" = a +:+ b -> a = "" /\ b = "".
Proof. destruct a; [rewrite append_nil_l; auto | rewrite append_cons; discriminate]. Qed.

Lemma matches_iff re s :
  matches re s = true <-> exists pre t, s = pre +:+ t /\ match_here re t = true.
Proof.
  induction s as [|c s IH]; simpl.
  - rewrite orb_false_r. split.
    + intros Hm. now exists "", "".
    + intros (pre & t & E & Hm). apply append_is_empty in E as [_ ->]. exact Hm.
  - rewrite orb_true_iff, IH. split.
    + intros [Hm | (pre & t & -> & Hm)].
      * now exists "", (String c s).
      * now exists (String c pre), t.
    + intros (pre & t & E & Hm). destruct pre as [|x pre].
      * left. rewrite append_nil_l in E. now subst t.
      * right. rewrite append_cons in E. injection E as -> ->. eauto.
Qed.

Lemma match_one a rest s :
  match_here (One a :: rest) s = true <->
  exists c t, s = String c t /\ accepts a c = true /\ match_here rest t = true.
Proof.
  destruct s as [|c t]; simpl.
  - split; [discriminate | intros (? & ? & ? & _); discriminate].
  - rewrite andb_true_iff. split.
    + intros [Ha Hm]. eauto.
    + intros (c' & t' & E & Ha & Hm). injection E as <- <-. auto.
Qed.

Lemma match_star_eq a rest s :
  match_here (Star a :: rest) s
  = match s with
    | String c s' => (accepts a c && match_here (Star a :: rest) s') || match_here rest s
    | EmptyString => match_here rest s
    end.
Proof. destruct s; reflexivity. Qed.

Lemma match_star a rest s :
  match_here (Star a :: rest) s = true <->
  exists d t, s = d +:+ t /\ allChars (accepts a) d = true /\ match_here rest t = true.
Proof.
  induction s as [|c s IH]; rewrite match_star_eq.
  - split.
    + intros Hm. now exists "", "".
    + intros (d & t & E & _ & Hm). apply append_is_empty in E as [_ ->]. exact Hm.
  - rewrite orb_true_iff, andb_true_iff, IH. split.
    + intros [[Ha (d & t & -> & Hd & Hm)] | Hm].
      * exists (String c d), t. simpl. rewrite Ha, Hd. auto.
      * now exists "", (String c s).
    + intros (d & t & E & Hd & Hm). destruct d as [|x d].
      * right. rewrite append_nil_l in E. now subst t.
      * left. rewrite append_cons in E. injection E as -> ->.
        simpl in Hd. apply andb_true_iff in Hd as [Ha Hd]. eauto 6.
Qed.

Lemma match_opt a rest s :
  match_here (Opt a :: rest) s = true <->
  match_here rest s = true \/
  exists c t, s = String c t /\ accepts a c = true /\ match_here rest t = true.
Proof.
  destruct s as [|c t]; simpl.
  - split; [auto | intros [Hm | (? & ? & ? & _)]; [exact Hm | discriminate]].
  - rewrite orb_true_iff, andb_true_iff. split.
    + intros [[Ha Hm] | Hm]; eauto 6.
    + intros [Hm | (c' & t' & E & Ha & Hm)]; [auto|]. injection E as <- <-. auto.
Qed.

Lemma match_end s : match_here [EndOfInput] s = true <-> s = "".
Proof. destruct s; simpl; split; congruence. Qed.

Lemma match_digits_to_end s :
  match_here [Star Digit; EndOfInput] s = true <-> allChars (accepts Digit) s = true.
Proof.
  rewrite match_star. split.
  - intros (d & t & -> & Hd & Ht). apply match_end in Ht as ->.
    now rewrite append_empty_r.
  - intros Hd. exists s, "". rewrite append_empty_r. repeat split; auto.
Qed.

End RegexFacts.

(** The pattern [isDefaultPythonKernelSpecSpecName] matches exactly the texts
    that hold, somewhere, [python], one white-space character, digits, at
    most one further character that is not a line terminator (the dot of the
    pattern is not escaped), and digits up to the end. *)
Theorem isDefaultPythonKernelSpecSpecName_matches (s : string) :
  Regex.matches isDefaultPythonKernelSpecSpecName s = true <-> defaultPythonName s.
Proof.
  unfold defaultPythonName.
  change isDefaultPythonKernelSpecSpecName
    with [Regex.One (Regex.Lit "p"); Regex.One (Regex.Lit "y"); Regex.One (Regex.Lit "t");
          Regex.One (Regex.Lit "h"); Regex.One (Regex.Lit "o"); Regex.One (Regex.Lit "n");
          Regex.One Regex.Whitespace; Regex.Star Regex.Digit; Regex.Opt Regex.AnyChar;
          Regex.Star Regex.Digit; Regex.EndOfInput].
  change ("python" : string)
    with (String "p" (String "y" (String "t" (String "h" (String "o" (String "n" "")))))).
  rewrite RegexFacts.matches_iff. split.
  - intros (pre & t & -> & Hm).
    do 6 (apply RegexFacts.match_one in Hm; destruct Hm as (? & ? & -> & Ha & Hm);
          apply Ascii.eqb_eq in Ha; subst).
    apply RegexFacts.match_one in Hm. destruct Hm as (w & t & -> & Hw & Hm).
    apply RegexFacts.match_star in Hm. destruct Hm as (d1 & t' & -> & Hd1 & Hm).
    apply RegexFacts.match_opt in Hm. destruct Hm as [Hm | (c & t & -> & Hc & Hm)];
      apply RegexFacts.match_digits_to_end in Hm.
    + exists pre, w, d1, "", t'.
      rewrite !RegexFacts.append_cons, !RegexFacts.append_nil_l. auto 6.
    + exists pre, w, d1, (String c ""), t.
      rewrite !RegexFacts.append_cons, !RegexFacts.append_nil_l.
      repeat split; eauto.
  - intros (pre & w & d1 & m & d2 & -> & Hw & Hd1 & Hd2 & Hm).
    eexists pre, _. split; [reflexivity|].
    rewrite !RegexFacts.append_cons, RegexFacts.append_nil_l.
    do 6 (apply RegexFacts.match_one; do 2 eexists;
          split; [reflexivity|]; split; [reflexivity|]).
    apply RegexFacts.match_one. exists w, (d1 +:+ m +:+ d2).
    split; [reflexivity|]. split; [exact Hw|].
    apply RegexFacts.match_star. exists d1, (m +:+ d2). split; [reflexivity|].
    split; [exact Hd1|]. apply RegexFacts.match_opt.
    destruct Hm as [-> | (c & -> & Hc)].
    + left. rewrite RegexFacts.append_nil_l. now apply RegexFacts.match_digits_to_end.
    + right. exists c, d2. rewrite RegexFacts.append_cons, RegexFacts.append_nil_l.
      repeat split; auto. now apply RegexFacts.match_digits_to_end.
Qed.

(** ** The per-file memoisation *)

Section MemoMore.
Context `{Helpers}.

Lemma shouldDeleteKernelSpec_no_root ks :
  shouldDeleteKernelSpec ks None = false.
Proof. destruct ks; reflexivity. Qed.

Lemma getKernelSpec_miss_fst specPath tok interp c w :
  pathToKernelSpec c !! getComparisonKey specPath = None ->
  fst (getKernelSpec specPath tok interp None (c, w))
  = loadKernelSpec specPath (files w) tok interp.
Proof.
  intros Hm. unfold getKernelSpec.
  destruct (JsString.includes _ _) eqn:Hold.
  - unfold loadKernelSpec. now rewrite Hold.
  - rewrite Hm. cbn -[shouldDeleteKernelSpec deleteOldKernelSpec]. rewrite lookup_insert_eq.
    rewrite shouldDeleteKernelSpec_no_root.
    destruct (loadKernelSpec specPath (files w) tok interp); reflexivity.
Qed.

Lemma getKernelSpec_none_no_entry specPath tok interp root c w :
  pathToKernelSpec c !! getComparisonKey specPath = None ->
  fst (getKernelSpec specPath tok interp root (c, w)) = None ->
  pathToKernelSpec (fst (snd (getKernelSpec specPath tok interp root (c, w))))
    !! getComparisonKey specPath = None.
Proof.
  intros Hm. unfold getKernelSpec.
  destruct (JsString.includes _ _); [intros _; exact Hm|].
  rewrite Hm. cbn -[shouldDeleteKernelSpec deleteOldKernelSpec]. rewrite lookup_insert_eq.
  destruct (loadKernelSpec specPath (files w) tok interp) as [ks|]; cbn -[shouldDeleteKernelSpec deleteOldKernelSpec].
  - destruct (shouldDeleteKernelSpec (Some ks) root); cbn -[shouldDeleteKernelSpec deleteOldKernelSpec]; [|intros E; discriminate E].
    intros _. apply lookup_delete_eq.
  - intros _. apply lookup_delete_eq.
Qed.

Lemma getKernelSpec_no_root_world specPath tok interp c w :
  snd (snd (getKernelSpec specPath tok interp None (c, w))) = w.
Proof.
  unfold getKernelSpec.
  destruct (JsString.includes _ _); [reflexivity|].
  destruct (pathToKernelSpec c !! getComparisonKey specPath) as [entry|] eqn:Hc.
  - rewrite Hc. rewrite shouldDeleteKernelSpec_no_root.
    destruct entry; reflexivity.
  - cbn -[shouldDeleteKernelSpec deleteOldKernelSpec]. rewrite lookup_insert_eq, shouldDeleteKernelSpec_no_root.
    destruct (loadKernelSpec specPath (files w) tok interp); reflexivity.
Qed.

(** A call that finds no entry and is given no global spec root returns what
    [loadKernelSpec] returns for its own token and interpreter; a failed load
    leaves no entry behind, so the next call reads the file again. *)
Theorem getKernelSpec_miss_loads specPath tok interp c w :
  pathToKernelSpec c !! getComparisonKey specPath = None ->
  let r := getKernelSpec specPath tok interp None (c, w) in
  fst r = loadKernelSpec specPath (files w) tok interp /\
  (fst r = None ->
   pathToKernelSpec (fst (snd r)) !! getComparisonKey specPath = None /\
   forall tok2 i2,
     fst (getKernelSpec specPath tok2 i2 None (snd r))
     = loadKernelSpec specPath (files w) tok2 i2).
Proof.
  intros Hmiss. cbv zeta.
  split; [now apply getKernelSpec_miss_fst|].
  intros Hnone.
  pose proof (getKernelSpec_none_no_entry specPath tok interp None c w Hmiss Hnone) as Hentry.
  pose proof (getKernelSpec_no_root_world specPath tok interp c w) as Hw.
  destruct (getKernelSpec specPath tok interp None (c, w)) as [res [c' w']].
  simpl in *. subst w'. split; [exact Hentry|].
  intros tok2 i2. now apply getKernelSpec_miss_fst.
Qed.

(** After a call that returns, for a path outside the quarantine folder, the
    entry of that path holds the record returned, or is absent when the call
    returned nothing; no other entry is touched. *)
Theorem getKernelSpec_entries specPath tok interp root c w :
  JsString.includes (fsPath specPath) oldKernelsSpecFolderName = false ->
  let r := getKernelSpec specPath tok interp root (c, w) in
  pathToKernelSpec (fst (snd r)) !! getComparisonKey specPath
  = match fst r with
    | Some ks => Some (Some ks)
    | None => None
    end /\
  forall key, key <> getComparisonKey specPath ->
              pathToKernelSpec (fst (snd r)) !! key = pathToKernelSpec c !! key.
Proof.
  intros Hold. cbv zeta. unfold getKernelSpec. rewrite Hold.
  destruct (pathToKernelSpec c !! getComparisonKey specPath) as [entry|] eqn:Hc.
  - rewrite Hc. destruct entry as [ks|]; cbn -[shouldDeleteKernelSpec deleteOldKernelSpec].
    + destruct (shouldDeleteKernelSpec (Some ks) root); cbn -[shouldDeleteKernelSpec deleteOldKernelSpec].
      * split; [apply lookup_delete_eq|]. intros key Hk. now apply lookup_delete_ne.
      * split; [exact Hc | reflexivity].
    + split; [apply lookup_delete_eq|]. intros key Hk. now apply lookup_delete_ne.
  - cbn -[shouldDeleteKernelSpec deleteOldKernelSpec]. rewrite lookup_insert_eq.
    destruct (loadKernelSpec specPath (files w) tok interp) as [ks|]; cbn -[shouldDeleteKernelSpec deleteOldKernelSpec].
    + destruct (shouldDeleteKernelSpec (Some ks) root); cbn -[shouldDeleteKernelSpec deleteOldKernelSpec].
      * split; [apply lookup_delete_eq|]. intros key Hk.
        rewrite lookup_delete_ne, lookup_insert_ne by congruence. reflexivity.
      * split; [apply lookup_insert_eq|]. intros key Hk.
        now rewrite lookup_insert_ne by congruence.
    + split; [apply lookup_delete_eq|]. intros key Hk.
      rewrite lookup_delete_ne, lookup_insert_ne by congruence. reflexivity.
Qed.


End MemoMore.


Lemma getKernelSpec_miss_loads_witness :
  let specPath := Uri.file "/usr/share/jupyter/kernels/missing/kernel.json" in
  let r := @getKernelSpec sampleHelpers specPath neverCancelled None None
             (emptySpecCache, sampleWorld) in
  fst r = None /\ pathToKernelSpec (fst (snd r)) !! "/usr/share/jupyter/kernels/missing/kernel.json" = None.
Proof.
  cbv zeta.
  destruct (@getKernelSpec_miss_loads sampleHelpers
              (Uri.file "/usr/share/jupyter/kernels/missing/kernel.json")
              neverCancelled None emptySpecCache sampleWorld eq_refl) as [Hfst Hnone].
  split; [rewrite Hfst; reflexivity|].
  apply Hnone. rewrite Hfst. reflexivity.
Defined.

Lemma getKernelSpec_entries_witness :
  let specPath := Uri.file "/usr/share/jupyter/kernels/python3/kernel.json" in
  let r := @getKernelSpec sampleHelpers specPath neverCancelled None None
             (emptySpecCache, sampleWorld) in
  pathToKernelSpec (fst (snd r)) !! "/usr/share/jupyter/kernels/python3/kernel.json"
  = match fst r with
    | Some ks => Some (Some ks)
    | None => None
    end.
Proof.
  exact (proj1 (@getKernelSpec_entries sampleHelpers
                  (Uri.file "/usr/share/jupyter/kernels/python3/kernel.json")
                  neverCancelled None None emptySpecCache sampleWorld eq_refl)).
Defined.

(** ** The quarantine *)

(** The quarantine, branch by branch: whatever the file system answers, the
    private field and the memento hold the quarantine folder afterwards, and
    the files differ from the old ones at most at the original, at its copy
    and at the directory of the copy. *)
Lemma deleteOldKernelSpec_world (f : string) (w : World) :
  let w' := snd (deleteOldKernelSpec f w) in
  let dst := quarantineFile f in
  let folder := path.join [path.dirname (path.dirname f); oldKernelsSpecFolderName] in
  _oldKernelSpecsFolder w' = Some folder /\
  globalState w' = <["OLD_KERNEL_SPECS_FOLDER__" := StoredString folder]> (globalState w) /\
  forall p, p <> f -> p <> dst -> p <> path.dirname dst ->
            files w' !! p = files w !! p.
Proof.
  cbv zeta. unfold deleteOldKernelSpec, quarantineFile.
  set (dst := path.join [path.join _; _; _]).
  set (d := path.dirname dst).
  unfold mbind, Async_bind, bind, effect, catch_noop, fsnode.createDirectory,
    fsnode.copy, fsnode.delete.
  rewrite !call_run. simpl.
  destruct (refuses w (CreateDirectory d)); simpl; [auto|].
  rewrite !call_run. simpl.
  destruct (refuses w (Copy f dst)); simpl;
    [| destruct (<[d:=Directory]> (files w) !! f); simpl ];
    rewrite !call_run; simpl;
    (destruct (refuses w (Delete f)); simpl;
     [| match goal with
        | |- context [match ?m !! f with _ => _ end] => destruct (m !! f); simpl
        end ]);
    (split; [reflexivity|]; split; [reflexivity|]; intros p Hf Hdst Hd;
     rewrite ?lookup_delete_ne, ?lookup_insert_ne by congruence; reflexivity).
Qed.

Lemma prefix_refl (t : string) : String.prefix t t = true.
Proof.
  induction t as [|c t IH]; simpl; [reflexivity|].
  destruct (ascii_dec c c); [exact IH | contradiction].
Qed.

(** The quarantine leaves as it was every path that is neither the original
    nor the directory of the copy nor a prefix of the path of the copy (so
    none of the directories above it, which creating the directory of the
    copy may create), whatever fails. *)
Theorem deleteOldKernelSpec_frame (f p : string) (w : World) :
  p <> f ->
  p <> path.dirname (quarantineFile f) ->
  String.prefix p (quarantineFile f) = false ->
  files (snd (deleteOldKernelSpec f w)) !! p = files w !! p.
Proof.
  intros Hf Hd Hpre.
  destruct (deleteOldKernelSpec_world f w) as (_ & _ & Hframe).
  apply Hframe; [exact Hf | | exact Hd].
  intros ->. rewrite prefix_refl in Hpre. discriminate.
Qed.

(** Whether the quarantine succeeds or is rejected, the finder remembers the
    quarantine folder: [oldKernelSpecsFolder] answers it afterwards, also
    from the memento alone, after a restart. *)
Theorem deleteOldKernelSpec_records_folder (f : string) (w : World) :
  let w' := snd (deleteOldKernelSpec f w) in
  let folder := path.join [path.dirname (path.dirname f); oldKernelsSpecFolderName] in
  oldKernelSpecsFolder w' = folder /\ oldKernelSpecsFolder (afterRestart w') = folder.
Proof.
  cbv zeta. destruct (deleteOldKernelSpec_world f w) as (Hfield & Hstate & _).
  unfold oldKernelSpecsFolder, afterRestart. simpl. rewrite Hfield, Hstate.
  rewrite lookup_insert_eq. simpl.
  split; [|reflexivity].
  match goal with |- (if ?b then _ else _) = _ => destruct b end; reflexivity.
Qed.

(** When the file system refuses nothing and the original exists (and is
    neither its own copy nor the directory of the copy), the quarantine
    returns normally, the original is gone and its content is at the
    quarantine path. *)
Theorem deleteOldKernelSpec_moves (f : string) (w : World) (node : FileNode) :
  files w !! f = Some node ->
  (forall c, refuses w c = false) ->
  quarantineFile f <> f ->
  path.dirname (quarantineFile f) <> f ->
  let r := deleteOldKernelSpec f w in
  fst r = Returned tt /\
  files (snd r) !! f = None /\
  files (snd r) !! quarantineFile f = Some node.
Proof.
  intros Hfile Hok Hdst Hd. cbv zeta.
  unfold deleteOldKernelSpec, quarantineFile in *.
  set (dst := path.join [path.join _; _; _]) in *.
  set (d := path.dirname dst) in *.
  unfold mbind, Async_bind, bind, effect, catch_noop, fsnode.createDirectory,
    fsnode.copy, fsnode.delete.
  rewrite !call_run. simpl. rewrite Hok. simpl.
  rewrite !call_run. simpl. rewrite Hok.
  rewrite (lookup_insert_ne (files w) d f) by exact Hd. rewrite Hfile. simpl.
  rewrite !call_run. simpl. rewrite Hok.
  rewrite (lookup_insert_ne _ dst f) by exact Hdst.
  rewrite (lookup_insert_ne (files w) d f) by exact Hd. rewrite Hfile. simpl.
  split; [reflexivity|]. split; [apply lookup_delete_eq|].
  rewrite lookup_delete_ne by congruence. apply lookup_insert_eq.
Qed.

Lemma deleteOldKernelSpec_frame_witness :
  files (snd (deleteOldKernelSpec "/usr/share/jupyter/kernels/custom/kernel.json" sampleWorld))
    !! "/usr/share/jupyter/kernels/python3/kernel.json"
  = Some (KernelJson python39Json).
Proof.
  rewrite (deleteOldKernelSpec_frame "/usr/share/jupyter/kernels/custom/kernel.json"
             "/usr/share/jupyter/kernels/python3/kernel.json" sampleWorld);
    [reflexivity | discriminate | vm_compute; discriminate | vm_compute; reflexivity].
Defined.

Lemma deleteOldKernelSpec_moves_witness :
  let r := deleteOldKernelSpec "/usr/share/jupyter/kernels/python3-old/kernel.json"
                               registeredWorld in
  fst r = Returned tt /\
  files (snd r) !! "/usr/share/jupyter/kernels/python3-old/kernel.json" = None /\
  files (snd r)
    !! "/usr/share/jupyter/kernels/__old_vscode_kernelspecs/python3-old/kernel.json"
  = Some (KernelJson registeredJson).
Proof.
  apply (deleteOldKernelSpec_moves "/usr/share/jupyter/kernels/python3-old/kernel.json"
           registeredWorld (KernelJson registeredJson));
    [reflexivity | reflexivity | vm_compute; discriminate | vm_compute; discriminate].
Defined.

(** ** The listing cache *)

(** A listing is memoised, whether the promise of its finder was fulfilled
    or rejected: after a call, a call for the same key that does not ignore
    the cache, made while the Python extension is in the same state, returns
    the same result and leaves the cache as it is, whatever its finder would
    have yielded. *)
Theorem listKernelsWithCache_memoised
    cacheKey dep1 finder1 ignoreCache installed kernelSpecCache dep2 finder2 :
  let first := listKernelsWithCache cacheKey dep1 finder1 ignoreCache installed
                                    kernelSpecCache in
  listKernelsWithCache cacheKey dep2 finder2 false installed (snd first) = first.
Proof.
  cbv zeta. unfold listKernelsWithCache at 2 3.
  destruct (cachedListing kernelSpecCache cacheKey ignoreCache installed) as [slot|] eqn:Hhit.
  - simpl. unfold listKernelsWithCache.
    assert (Hhit' : cachedListing kernelSpecCache cacheKey false installed = Some slot).
    { unfold cachedListing in *.
      destruct (kernelSpecCache !! cacheKey); [|discriminate].
      destruct ignoreCache; [discriminate | exact Hhit]. }
    now rewrite Hhit'.
  - simpl. unfold listKernelsWithCache, cachedListing. rewrite lookup_insert_eq. simpl.
    rewrite eqb_reflx. destruct dep1; reflexivity.
Qed.

(** The two ways out of the cache.  A call that ignores the cache always
    runs the finder.  A listing that depends on the Python extension is redone
    when the extension has been installed or removed since; one that does not
    depend on it is kept. *)
Theorem listKernelsWithCache_refresh cacheKey dep finder installed kernelSpecCache :
  let fresh := match finder with
               | Fulfilled items => Fulfilled (distinctSorted items)
               | Failed ex => Failed ex
               end in
  fst (listKernelsWithCache cacheKey dep finder true installed kernelSpecCache) = fresh /\
  forall dep1 finder1 ignoreCache,
    let first := listKernelsWithCache cacheKey dep1 finder1 ignoreCache (negb installed)
                                      kernelSpecCache in
    cachedListing kernelSpecCache cacheKey ignoreCache (negb installed) = None ->
    fst (listKernelsWithCache cacheKey dep finder false installed (snd first))
    = if dep1 then fresh else fst first.
Proof.
  cbv zeta. split.
  - unfold listKernelsWithCache, cachedListing.
    destruct (kernelSpecCache !! cacheKey); reflexivity.
  - intros dep1 finder1 ignoreCache Hmiss.
    unfold listKernelsWithCache at 2 3. rewrite Hmiss. simpl.
    unfold listKernelsWithCache, cachedListing. rewrite lookup_insert_eq. simpl.
    destruct dep1; simpl; [|reflexivity].
    destruct installed; reflexivity.
Qed.

Lemma listKernelsWithCache_refresh_witness :
  fst (listKernelsWithCache "local" true (Fulfilled finderItems) false true
         (snd (listKernelsWithCache "local" true (Fulfilled []) false false ∅)))
  = Fulfilled [namedKernel "k1" "Alpha"; namedKernel "k2" "beta"].
Proof.
  assert (Hmiss : cachedListing ∅ "local" false (negb true) = None) by reflexivity.
  pose proof (proj2 (listKernelsWithCache_refresh "local" true (Fulfilled finderItems) true ∅)
                    true (Fulfilled []) false Hmiss) as W.
  cbv zeta in W. change (negb true) with false in W. rewrite W. reflexivity.
Defined.

(** ** Distinct and sorted *)

Lemma sort_of_sorted (l : list LocalKernelConnectionMetadata) :
  Sorted displayNameLe l -> JsArray.sort compareDisplayNames l = l.
Proof.
  induction 1 as [|x l Hs IH Hhd]; [reflexivity|].
  change (JsArray.sort compareDisplayNames (x :: l))
    with (JsArray.insert compareDisplayNames x (JsArray.sort compareDisplayNames l)).
  rewrite IH. destruct Hhd as [|y l Hxy]; [reflexivity|]. simpl.
  destruct (Z.leb_spec (compareDisplayNames x y) 0) as [Hle|Hgt]; [reflexivity|].
  exfalso. unfold compareDisplayNames, displayNameLe in *.
  destruct (String.eqb_spec (JsString.toUpperCase (display_name (Kernel.kernelSpec x)))
                            (JsString.toUpperCase (display_name (Kernel.kernelSpec y))))
    as [E|NE]; [lia|].
  destruct (JsString.ltb (JsString.toUpperCase (display_name (Kernel.kernelSpec x)))
                         (JsString.toUpperCase (display_name (Kernel.kernelSpec y))))
    eqn:Hlt; [lia|].
  apply NE. now apply JsStringFacts.ltb_total.
Qed.

Lemma distinct_of_distinct (l : list LocalKernelConnectionMetadata) :
  NoDup (map Kernel.id l) ->
  distinctKernelMetadata l = map (fun k => (Kernel.id k, k)) l.
Proof.
  induction l as [|k l IH] using rev_ind; [reflexivity|].
  rewrite map_app. intros Hnd. apply NoDup_app in Hnd as (Hl & Hk & _).
  unfold distinctKernelMetadata in *. rewrite fold_left_app. simpl.
  rewrite (IH Hl).
  assert (Hhas : JsMap.has (map (fun k0 => (Kernel.id k0, k0)) l) (Kernel.id k) = false).
  { destruct (JsMap.has _ _) eqn:E; [|reflexivity].
    apply JsMapFacts.has_In in E. rewrite map_map in E. simpl in E.
    exfalso. apply (Hk (Kernel.id k)); [now apply list_elem_of_In | now left]. }
  rewrite Hhas. simpl. rewrite (JsMapFacts.set_fresh _ _ _ Hhas).
  now rewrite map_app.
Qed.

Lemma distinctSorted_NoDup items : NoDup (map Kernel.id (distinctSorted items)).
Proof.
  unfold distinctSorted.
  destruct (distinctKernelMetadata_spec items) as (Hkeys & Hnd & _).
  cbv zeta in *. apply NoDup_ListNoDup.
  eapply Permutation_NoDup;
    [symmetry; apply Permutation_map, JsArrayFacts.sort_perm|].
  apply NoDup_ListNoDup. now rewrite <- Hkeys.
Qed.

(** Listing what a listing returned changes nothing: the result of
    [distinctSorted] is a fixed point of it. *)
Theorem distinctSorted_idempotent items :
  distinctSorted (distinctSorted items) = distinctSorted items.
Proof.
  unfold distinctSorted at 1.
  rewrite (distinct_of_distinct _ (distinctSorted_NoDup items)).
  unfold JsMap.values. rewrite map_map. simpl. rewrite map_id.
  apply sort_of_sorted. unfold distinctSorted.
  apply JsArrayFacts.sort_sorted;
    [exact compareDisplayNames_before | exact compareDisplayNames_after].
Qed.

(** No id is lost: the ids listed are exactly the ids the finder yielded. *)
Theorem distinctSorted_ids items i :
  In i (map Kernel.id (distinctSorted items)) <-> In i (map Kernel.id items).
Proof.
  unfold distinctSorted.
  destruct (distinctKernelMetadata_spec items) as (Hkeys & _ & Hids & _).
  cbv zeta in *. rewrite <- Hids, Hkeys.
  split; apply Permutation_in, Permutation_map;
    [|symmetry]; apply JsArrayFacts.sort_perm.
Qed.

(** ** The memento bridge *)

Section MementoMore.
Context `{Helpers}.

(** What [listKernelsFirstTimeFromMemento] can return: a kernel is listed
    exactly when the key holds a blob written under the running extension
    version whose [kernels] is an array, the kernel is one of its items,
    deserialised, and [isValidCachedKernel] accepts it.  A missing key, a value
    of another shape and a blob of another version all give the empty list. *)
Theorem listKernelsFirstTimeFromMemento_members extensionVersion w cacheKey k :
  In k (listKernelsFirstTimeFromMemento extensionVersion w cacheKey) <->
  exists stored,
    globalState w !! cacheKey = Some (StoredKernels (Some stored) extensionVersion) /\
    In k (map deserializeKernelConnection stored) /\
    isValidCachedKernel (files w) k = true.
Proof.
  unfold listKernelsFirstTimeFromMemento. split.
  - destruct (globalState w !! cacheKey) as [[s | [stored|] v]|]; simpl;
      try (intros []).
    + destruct (String.eqb_spec v extensionVersion) as [->|NE]; simpl; [|intros []].
      intros Hin. apply filter_In in Hin as [Hin Hvalid]. eauto.
    + match goal with |- context [if ?b then _ else _] => destruct b end; intros [].
  - intros (stored & -> & Hin & Hvalid). simpl. rewrite String.eqb_refl.
    apply filter_In. auto.
Qed.

Context `{MementoHelpers}.

(** What is written is read back: after [writeToMementoCache], reading the
    same key under the same extension version gives exactly the kernels
    written that are still valid, in some order, provided deserialising undoes
    serialising and the clean-up of old items leaves the key alone; reading
    under another version gives nothing. *)
Theorem writeToMementoCache_read_back cleanUpLast extensionVersion values cacheKey w :
  (forall k, In k values ->
             deserializeKernelConnection (serializeKernelConnection k) = k) ->
  (forall gs, removeOldCachedItems gs !! cacheKey = gs !! cacheKey) ->
  let w' := writeToMementoCache cleanUpLast extensionVersion values cacheKey w in
  Permutation (listKernelsFirstTimeFromMemento extensionVersion w' cacheKey)
              (List.filter (isValidCachedKernel (files w)) values) /\
  forall otherVersion, otherVersion <> extensionVersion ->
                       listKernelsFirstTimeFromMemento otherVersion w' cacheKey = [].
Proof.
  intros Hround Hkeep. cbv zeta.
  assert (Hget : globalState (writeToMementoCache cleanUpLast extensionVersion values cacheKey w)
                 !! cacheKey
                 = Some (StoredKernels (Some (map serializeKernelConnection values))
                                       extensionVersion)).
  { unfold writeToMementoCache. simpl. destruct cleanUpLast.
    - rewrite Hkeep. apply lookup_insert_eq.
    - apply lookup_insert_eq. }
  unfold listKernelsFirstTimeFromMemento. rewrite Hget. simpl. split.
  - rewrite String.eqb_refl, map_map.
    assert (E : map (fun k => deserializeKernelConnection (serializeKernelConnection k)) values
                = values).
    { rewrite <- (map_id values) at 2. apply map_ext_in. exact Hround. }
    rewrite E. reflexivity.
  - intros otherVersion Hne.
    destruct (String.eqb_spec extensionVersion otherVersion) as [E|_]; [congruence|].
    reflexivity.
Qed.

End MementoMore.

Lemma writeToMementoCache_read_back_witness :
  Permutation
    (@listKernelsFirstTimeFromMemento sampleHelpers "1.0.0"
       (@writeToMementoCache sampleMementoHelpers true "1.0.0" [liveKernel] "LOCAL_KERNELS"
                             sampleWorld)
       "LOCAL_KERNELS")
    [liveKernel].
Proof.
  exact (proj1 (@writeToMementoCache_read_back sampleHelpers sampleMementoHelpers
                  true "1.0.0" [liveKernel] "LOCAL_KERNELS" sampleWorld
                  (fun k _ => eq_refl)
                  (fun gs => lookup_delete_ne gs "JUPYTER_LOCAL_KERNELSPECS" "LOCAL_KERNELS"
                               ltac:(discriminate)))).
Defined.

(** ** The path-search cache *)

Section SearchMore.
Context `{Helpers}.

Lemma settle_listeners p pr r st l :
  In l (listeners (settle p pr r st)) <-> In l (listeners st) /\ guardedPromise l <> p.
Proof.
  unfold settle. simpl. rewrite filter_In, negb_true_iff, Nat.eqb_neq. reflexivity.
Qed.

Lemma settle_promises p pr r st :
  promises (settle p pr r st) = setStage p (Done r) (promises st).
Proof. reflexivity. Qed.

(** A listener stays registered as long as its promise is pending. *)
Lemma step_keeps_listener st e l :
  In l (listeners st) ->
  (forall pr', promises (step st e) !! guardedPromise l = Some pr' ->
               pending (stage pr') = true) ->
  In l (listeners (step st e)).
Proof.
  intros Hl Hpend.
  destruct e as [item token | q r | q r | token]; unfold step in *.
  - unfold findKernelSpecsInPath.
    destruct (findKernelSpecsInPathCache st !! cacheKeyOf item); simpl; [exact Hl|].
    apply in_app_iff. now left.
  - destruct (promises st !! q) as [qr|] eqn:Hq; [|exact Hl].
    destruct (stage qr) eqn:Hst; try exact Hl.
    unfold afterExists in *.
    destruct r as [[|]|ex]; try destruct (existsb _ _); try exact Hl;
      (apply settle_listeners; split; [exact Hl|]; intros E;
       rewrite settle_promises, E, (setStage_lookup_eq _ _ _ _ Hq) in Hpend;
       specialize (Hpend _ eq_refl); discriminate).
  - destruct (promises st !! q) as [qr|] eqn:Hq; [|exact Hl].
    destruct (stage qr) eqn:Hst; try exact Hl.
    unfold afterSearchLocal in *.
    destruct r as [found|ex];
      (apply settle_listeners; split; [exact Hl|]; intros E;
       rewrite settle_promises, E, (setStage_lookup_eq _ _ _ _ Hq) in Hpend;
       specialize (Hpend _ eq_refl); discriminate).
  - exact Hl.
Qed.

Lemma listenersComplete_step st e : listenersComplete st -> listenersComplete (step st e).
Proof.
  intros Hinv p pr' Hp' Hpend'.
  destruct (decide (p < length (promises st))) as [Hlt|Hge].
  - destruct (lookup_lt_is_Some_2 _ _ Hlt) as (pr & Hp).
    destruct (step_promise_static st e p pr Hp) as (pr1 & Hp1 & Hi & Ht & Hback & _).
    assert (pr1 = pr') as -> by congruence.
    rewrite Hi, Ht. apply step_keeps_listener.
    + apply Hinv; auto.
    + simpl. intros pr2 Hp2. congruence.
  - destruct e as [item token | q r | q r | token]; unfold step in *.
    + unfold findKernelSpecsInPath in *.
      destruct (findKernelSpecsInPathCache st !! cacheKeyOf item); simpl in *.
      * apply lookup_lt_Some in Hp'. lia.
      * destruct (decide (p = length (promises st))) as [->|Hne].
        -- rewrite lookup_app_r, Nat.sub_diag in Hp' by lia.
           injection Hp' as <-. simpl. apply in_app_iff. right. now left.
        -- apply lookup_lt_Some in Hp'. rewrite length_app in Hp'. simpl in Hp'. lia.
    + exfalso. apply lookup_lt_Some in Hp'.
      destruct (promises st !! q) as [qr|]; [|lia].
      destruct (stage qr); try lia.
      destruct (afterExists_promises q qr r st) as (s & _ & E).
      rewrite E, setStage_length in Hp'. lia.
    + exfalso. apply lookup_lt_Some in Hp'.
      destruct (promises st !! q) as [qr|]; [|lia].
      destruct (stage qr); try lia.
      destruct (afterSearchLocal_promises q qr r st) as (s & _ & E).
      rewrite E, setStage_length in Hp'. lia.
    + exfalso. apply lookup_lt_Some in Hp'. simpl in Hp'. lia.
Qed.

Lemma listenersComplete_reachable st : reachable st -> listenersComplete st.
Proof.
  intros (events & ->). unfold run.
  assert (Hgen : forall st0, listenersComplete st0 ->
                             listenersComplete (fold_left step events st0)).
  { induction events as [|e es IH]; intros st0 H0; simpl; [exact H0|].
    apply IH, listenersComplete_step, H0. }
  apply Hgen. intros p pr Hp. simpl in Hp. rewrite lookup_nil in Hp. discriminate.
Qed.

End SearchMore.

Section SearchExtras.
Context `{Helpers}.

Lemma evictIfCurrent_none key' q key (c : gmap string nat) :
  c !! key = None -> evictIfCurrent key' q c !! key = None.
Proof.
  intros Hc. unfold evictIfCurrent. case_decide; [|exact Hc].
  destruct (decide (key' = key)) as [->|Hne];
    [apply lookup_delete_eq | now rewrite lookup_delete_ne].
Qed.

Lemma evictIfCurrent_same_or_none key' q key (c : gmap string nat) :
  evictIfCurrent key' q c !! key = c !! key \/ evictIfCurrent key' q c !! key = None.
Proof.
  unfold evictIfCurrent. case_decide; [|now left].
  destruct (decide (key' = key)) as [->|Hne].
  - right. apply lookup_delete_eq.
  - left. now rewrite lookup_delete_ne.
Qed.

Lemma fire_none token (ls : list Listener) key : forall (c : gmap string nat),
  c !! key = None ->
  fold_left (fun c l => if listensTo l =? token
                        then evictIfCurrent (guardedKey l) (guardedPromise l) c
                        else c) ls c !! key = None.
Proof.
  induction ls as [|l ls IH]; intros c Hc; simpl; [exact Hc|].
  apply IH. destruct (listensTo l =? token); [|exact Hc].
  now apply evictIfCurrent_none.
Qed.

(** Firing the listeners of a token evicts the entry that one of them guards. *)
Lemma fire_evicts token (ls : list Listener) key p : forall (c : gmap string nat),
  In {| listensTo := token; guardedKey := key; guardedPromise := p |} ls ->
  c !! key = Some p \/ c !! key = None ->
  fold_left (fun c l => if listensTo l =? token
                        then evictIfCurrent (guardedKey l) (guardedPromise l) c
                        else c) ls c !! key = None.
Proof.
  induction ls as [|l ls IH]; intros c Hin Hc; simpl; [destruct Hin|].
  destruct Hin as [-> | Hin].
  - simpl. rewrite Nat.eqb_refl. apply fire_none.
    destruct Hc as [Hc|Hc];
      [now apply evictIfCurrent_current | now apply evictIfCurrent_none].
  - apply IH; [exact Hin|].
    destruct (listensTo l =? token); [|exact Hc].
    destruct (evictIfCurrent_same_or_none (guardedKey l) (guardedPromise l) key c)
      as [-> | ->]; auto.
Qed.

(** Cancelling the token of a pending search evicts its entry at once; the
    search itself is not aborted (its promise stays as it is and no request is
    issued or withdrawn), and the next call for the key starts a fresh
    search. *)
Theorem cancellation_evicts_pending st p pr :
  reachable st ->
  promises st !! p = Some pr ->
  pending (stage pr) = true ->
  findKernelSpecsInPathCache st !! cacheKeyOf (searchItem pr) = Some p ->
  let st' := step st (CancellationRequested (cancelToken pr)) in
  findKernelSpecsInPathCache st' !! cacheKeyOf (searchItem pr) = None /\
  promises st' = promises st /\
  searchLocalCalls st' = searchLocalCalls st /\
  forall item token,
    cacheKeyOf item = cacheKeyOf (searchItem pr) ->
    fst (findKernelSpecsInPath item token st') = length (promises st) /\
    stageOf (snd (findKernelSpecsInPath item token st')) (length (promises st))
    = Some AwaitingExists.
Proof.
  intros Hr Hp Hpend Hc. cbv zeta.
  assert (Hnone : findKernelSpecsInPathCache (step st (CancellationRequested (cancelToken pr)))
                  !! cacheKeyOf (searchItem pr) = None).
  { simpl. apply (fire_evicts _ _ _ p); [|now left].
    now apply (listenersComplete_reachable st Hr p pr). }
  split; [exact Hnone|]. split; [reflexivity|]. split; [reflexivity|].
  intros item token Hk.
  destruct (findKernelSpecsInPath_miss item token
              (step st (CancellationRequested (cancelToken pr)))) as (H1 & H2 & _);
    [now rewrite Hk | auto].
Qed.

(** Cancelling a token leaves alone every entry whose promise was started
    with another token. *)
Theorem cancellation_spares_other_tokens st token key p pr :
  reachable st ->
  promises st !! p = Some pr ->
  findKernelSpecsInPathCache st !! key = Some p ->
  token <> cancelToken pr ->
  findKernelSpecsInPathCache (step st (CancellationRequested token)) !! key = Some p.
Proof.
  intros Hr Hp Hc Hne. destruct (reachable_consistent st Hr) as (HL & _ & _).
  simpl. apply cancel_keeps_entry; [exact Hc|].
  intros l Hl Ht Hg. destruct (HL l Hl) as (lr & Hlr & Hlt).
  rewrite Hg, Hp in Hlr. injection Hlr as <-. congruence.
Qed.

(** One step keeps the entry of a fulfilled promise that no listener guards,
    and gives it no listener. *)
Lemma step_keeps_fulfilled st e key p pr found :
  (forall l, In l (listeners st) -> guardedPromise l <> p) ->
  findKernelSpecsInPathCache st !! key = Some p ->
  promises st !! p = Some pr ->
  stage pr = Done (Fulfilled found) ->
  findKernelSpecsInPathCache (step st e) !! key = Some p /\
  promises (step st e) !! p = Some pr /\
  (forall l, In l (listeners (step st e)) -> guardedPromise l <> p).
Proof.
  intros HL Hc Hp Hst.
  assert (Hnew : forall l, In l (listeners (step st e)) -> guardedPromise l <> p).
  { intros l Hl. destruct (listeners_step st e l Hl) as [Hold | (item & token & _ & _ & ->)].
    - now apply HL.
    - simpl. apply lookup_lt_Some in Hp. lia. }
  split; [|split; [|exact Hnew]]; clear Hnew;
    destruct e as [item token | q r | q r | token]; unfold step.
  - unfold findKernelSpecsInPath.
    destruct (findKernelSpecsInPathCache st !! cacheKeyOf item) eqn:Hi; simpl; [auto|].
    rewrite lookup_insert_ne; [exact Hc | congruence].
  - destruct (promises st !! q) as [qr|] eqn:Hq; [|auto].
    destruct (stage qr) eqn:Hq'; auto.
    assert (Hne : q <> p) by (intros ->; congruence).
    unfold afterExists, settle.
    destruct r as [[|]|ex]; try destruct (existsb _ _); simpl;
      try exact Hc; now apply evictIfCurrent_other.
  - destruct (promises st !! q) as [qr|] eqn:Hq; [|auto].
    destruct (stage qr) eqn:Hq'; auto.
    assert (Hne : q <> p) by (intros ->; congruence).
    unfold afterSearchLocal, settle.
    destruct r as [found'|ex]; simpl; try exact Hc; now apply evictIfCurrent_other.
  - simpl. apply cancel_keeps_entry; [exact Hc|]. intros l Hl _. now apply HL.
  - unfold findKernelSpecsInPath.
    destruct (findKernelSpecsInPathCache st !! cacheKeyOf item); simpl; [exact Hp|].
    now apply lookup_app_l_Some.
  - destruct (promises st !! q) as [qr|] eqn:Hq; [|auto].
    destruct (stage qr) eqn:Hq'; auto.
    assert (Hne : q <> p) by (intros ->; congruence).
    destruct (afterExists_promises q qr r st) as (s0 & _ & ->).
    now rewrite setStage_lookup_ne by congruence.
  - destruct (promises st !! q) as [qr|] eqn:Hq; [|auto].
    destruct (stage qr) eqn:Hq'; auto.
    assert (Hne : q <> p) by (intros ->; congruence).
    destruct (afterSearchLocal_promises q qr r st) as (s0 & _ & ->).
    now rewrite setStage_lookup_ne by congruence.
  - exact Hp.
Qed.

(** Once a search is fulfilled and the listener of its promise has been
    disposed (its [finally] handler has run), its entry is never evicted:
    whatever calls, completions and cancellations follow, the key keeps
    answering with that promise and its result, so the directory is not
    searched again. *)
Theorem fulfilled_entry_is_permanent st key p found events :
  findKernelSpecsInPathCache st !! key = Some p ->
  stageOf st p = Some (Done (Fulfilled found)) ->
  (forall l, In l (listeners st) -> guardedPromise l <> p) ->
  findKernelSpecsInPathCache (run st events) !! key = Some p /\
  stageOf (run st events) p = Some (Done (Fulfilled found)).
Proof.
  intros Hc Hs HL. unfold stageOf in *.
  destruct (promises st !! p) as [pr|] eqn:Hp; [|discriminate].
  injection Hs as Hs.
  assert (Hgen : forall st0,
            (forall l, In l (listeners st0) -> guardedPromise l <> p) ->
            findKernelSpecsInPathCache st0 !! key = Some p ->
            promises st0 !! p = Some pr ->
            findKernelSpecsInPathCache (run st0 events) !! key = Some p /\
            promises (run st0 events) !! p = Some pr).
  { induction events as [|e es IH]; intros st0 HL0 Hc0 Hp0; simpl; [auto|].
    destruct (step_keeps_fulfilled st0 e key p pr found HL0 Hc0 Hp0 Hs) as (Hc1 & Hp1 & HL1).
    now apply IH. }
  destruct (Hgen st HL Hc Hp) as [Hc' Hp'].
  split; [exact Hc'|]. rewrite Hp'. simpl. now rewrite Hs.
Qed.

(** A search whose token is cancelled before the existence check completes
    never issues its glob, whatever follows. *)
Theorem cancelled_search_never_globs st p pr events :
  reachable st ->
  promises st !! p = Some pr ->
  stage pr = AwaitingExists ->
  In (cancelToken pr) (cancellationRequested st) ->
  globsFor p (run st events) = 0.
Proof.
  intros Hr Hp Hst Hcan.
  assert (Hfree : ~ In p (map fst (searchLocalCalls st))).
  { destruct (reachable_consistent st Hr) as (_ & _ & HS).
    intros Hin. apply in_map_iff in Hin as (c & <- & Hc).
    destruct (HS c Hc) as (pr0 & Hp0 & Hst0). congruence. }
  assert (Hnot : stage pr <> AwaitingSearchLocal) by (rewrite Hst; discriminate).
  clear Hst Hr.
  assert (Hgen : ~ In p (map fst (searchLocalCalls (run st events)))).
  { revert st pr Hp Hnot Hcan Hfree.
    induction events as [|e es IH]; intros st pr Hp Hnot Hcan Hfree; simpl; [exact Hfree|].
    assert (Hstep : exists pr',
               promises (step st e) !! p = Some pr' /\
               cancelToken pr' = cancelToken pr /\
               stage pr' <> AwaitingSearchLocal /\
               In (cancelToken pr) (cancellationRequested (step st e)) /\
               ~ In p (map fst (searchLocalCalls (step st e)))).
    { destruct e as [item token | q r | q r | token]; unfold step.
      - unfold findKernelSpecsInPath.
        destruct (findKernelSpecsInPathCache st !! cacheKeyOf item); simpl; [eauto 6|].
        exists pr. split; [now apply lookup_app_l_Some | auto].
      - destruct (promises st !! q) as [qr|] eqn:Hq; [|eauto 6].
        destruct (stage qr) eqn:Hq'; eauto 6.
        destruct (decide (q = p)) as [->|Hne].
        + assert (qr = pr) as -> by congruence.
          assert (Hex : existsb (Nat.eqb (cancelToken pr)) (cancellationRequested st) = true).
          { apply existsb_exists. exists (cancelToken pr). split; [exact Hcan|].
            apply Nat.eqb_refl. }
          unfold afterExists. rewrite Hex.
          destruct r as [[|]|ex]; rewrite settle_promises, (setStage_lookup_eq _ _ _ _ Hp);
            (eexists; split; [reflexivity|]; simpl; repeat split; auto; discriminate).
        + exists pr. unfold afterExists, settle.
          destruct r as [[|]|ex]; try destruct (existsb _ _); simpl;
            rewrite setStage_lookup_ne by congruence; repeat split; auto.
          rewrite map_app, in_app_iff. simpl. intros [Hin|[E|[]]]; [auto | congruence].
      - destruct (promises st !! q) as [qr|] eqn:Hq; [|eauto 6].
        destruct (stage qr) eqn:Hq'; eauto 6.
        assert (Hne : q <> p) by (intros ->; congruence).
        exists pr. unfold afterSearchLocal, settle.
        destruct r as [found|ex]; simpl;
          rewrite setStage_lookup_ne by congruence; repeat split; auto.
      - exists pr. simpl. repeat split; auto. }
    destruct Hstep as (pr' & Hp' & Ht' & Hnot' & Hcan' & Hfree').
    apply (IH (step st e) pr'); auto. now rewrite Ht'. }
  unfold globsFor. now rewrite no_globs_for.
Qed.

Lemma findKernelSpecsInPath_keeps_entries item token st key p :
  findKernelSpecsInPathCache st !! key = Some p ->
  findKernelSpecsInPathCache (snd (findKernelSpecsInPath item token st)) !! key = Some p.
Proof.
  intros Hc. unfold findKernelSpecsInPath.
  destruct (findKernelSpecsInPathCache st !! cacheKeyOf item) eqn:Hi; simpl; [exact Hc|].
  rewrite lookup_insert_ne; [exact Hc | congruence].
Qed.

Lemma findKernelSpecsInPath_entry item token st :
  findKernelSpecsInPathCache (snd (findKernelSpecsInPath item token st)) !! cacheKeyOf item
  = Some (fst (findKernelSpecsInPath item token st)) /\
  searchLocalCalls (snd (findKernelSpecsInPath item token st)) = searchLocalCalls st.
Proof.
  unfold findKernelSpecsInPath.
  destruct (findKernelSpecsInPathCache st !! cacheKeyOf item) eqn:Hi; simpl; [auto|].
  split; [apply lookup_insert_eq | reflexivity].
Qed.

Lemma findKernelSpecsInPaths_snoc paths item token st :
  findKernelSpecsInPaths (paths ++ [item]) token st
  = (fst (findKernelSpecsInPaths paths token st)
       ++ [fst (findKernelSpecsInPath item token (snd (findKernelSpecsInPaths paths token st)))],
     snd (findKernelSpecsInPath item token (snd (findKernelSpecsInPaths paths token st)))).
Proof. unfold findKernelSpecsInPaths. now rewrite fold_left_app. Qed.

(** A batch of searches gives one promise per path, each cached under the
    key of its path when the batch returns; so two paths of the batch with the
    same key share one promise.  Starting the batch issues no glob. *)
Theorem findKernelSpecsInPaths_shares paths token st :
  let r := findKernelSpecsInPaths paths token st in
  length (fst r) = length paths /\
  (forall n item p,
     paths !! n = Some item -> fst r !! n = Some p ->
     findKernelSpecsInPathCache (snd r) !! cacheKeyOf item = Some p) /\
  (forall n m item1 item2 p q,
     paths !! n = Some item1 -> paths !! m = Some item2 ->
     fst r !! n = Some p -> fst r !! m = Some q ->
     cacheKeyOf item1 = cacheKeyOf item2 -> p = q) /\
  searchLocalCalls (snd r) = searchLocalCalls st.
Proof.
  cbv zeta.
  assert (Hmain :
    length (fst (findKernelSpecsInPaths paths token st)) = length paths /\
    (forall n item p,
       paths !! n = Some item -> fst (findKernelSpecsInPaths paths token st) !! n = Some p ->
       findKernelSpecsInPathCache (snd (findKernelSpecsInPaths paths token st))
         !! cacheKeyOf item = Some p) /\
    searchLocalCalls (snd (findKernelSpecsInPaths paths token st)) = searchLocalCalls st).
  { induction paths as [|x paths IH] using rev_ind.
    - split; [reflexivity|]. split; [|reflexivity].
      intros n item p Hn. rewrite lookup_nil in Hn. discriminate.
    - destruct IH as (Hlen & Hent & Hcalls).
      rewrite findKernelSpecsInPaths_snoc. simpl.
      destruct (findKernelSpecsInPath_entry x token
                  (snd (findKernelSpecsInPaths paths token st))) as [Hnew Hsame].
      split; [rewrite !length_app, Hlen; reflexivity|].
      split; [|now rewrite Hsame].
      intros n item p Hn Hp.
      destruct (decide (n < length paths)) as [Hlt|Hge].
      + rewrite lookup_app_l in Hn by exact Hlt.
        rewrite lookup_app_l in Hp by (now rewrite Hlen).
        apply findKernelSpecsInPath_keeps_entries. eauto.
      + assert (n = length paths) as ->.
        { apply lookup_lt_Some in Hn. rewrite length_app in Hn. simpl in Hn. lia. }
        rewrite lookup_app_r, Nat.sub_diag in Hn by lia.
        rewrite lookup_app_r in Hp by (rewrite Hlen; lia).
        rewrite Hlen, Nat.sub_diag in Hp. simpl in Hn, Hp.
        injection Hn as <-. injection Hp as <-. exact Hnew. }
  destruct Hmain as (Hlen & Hent & Hcalls).
  split; [exact Hlen|]. split; [exact Hent|]. split; [|exact Hcalls].
  intros n m item1 item2 p q Hn Hm Hp Hq Hk.
  pose proof (Hent n item1 p Hn Hp) as E1.
  pose proof (Hent m item2 q Hm Hq) as E2.
  rewrite Hk in E1. congruence.
Qed.

End SearchExtras.

Lemma loadKernelSpec_plain_name_witness :
  exists ks,
    @loadKernelSpec sampleHelpers (Uri.file "/usr/share/jupyter/kernels/ir/kernel.json")
                    rFiles neverCancelled None = Some ks /\
    name ks = Some "ir".
Proof.
  eexists. split; [vm_compute; reflexivity|].
  apply (@loadKernelSpec_plain_name sampleHelpers
           (Uri.file "/usr/share/jupyter/kernels/ir/kernel.json") rFiles neverCancelled None
           rJson); [reflexivity | vm_compute; reflexivity | left; reflexivity].
Defined.

Lemma cancellation_evicts_pending_witness :
  findKernelSpecsInPathCache (@step sampleHelpers globbing (CancellationRequested 7))
    !! "/usr/share/jupyter/kernels" = None /\
  @stageOf (@step sampleHelpers globbing (CancellationRequested 7)) 0
  = Some AwaitingSearchLocal.
Proof.
  split; [|reflexivity].
  apply (@cancellation_evicts_pending sampleHelpers globbing 0
           {| searchItem := kernelsFolder; cancelToken := 7; stage := AwaitingSearchLocal |}).
  - exists [Call kernelsFolder 7; ExistsSettled 0 (Fulfilled true)]. reflexivity.
  - reflexivity.
  - reflexivity.
  - reflexivity.
Defined.

Lemma cancellation_spares_other_tokens_witness :
  findKernelSpecsInPathCache (@step sampleHelpers globbing (CancellationRequested 8))
    !! "/usr/share/jupyter/kernels" = Some 0.
Proof.
  apply (@cancellation_spares_other_tokens sampleHelpers globbing 8
           "/usr/share/jupyter/kernels" 0
           {| searchItem := kernelsFolder; cancelToken := 7; stage := AwaitingSearchLocal |}).
  - exists [Call kernelsFolder 7; ExistsSettled 0 (Fulfilled true)]. reflexivity.
  - reflexivity.
  - reflexivity.
  - discriminate.
Defined.

Lemma fulfilled_entry_is_permanent_witness :
  findKernelSpecsInPathCache
    (@run sampleHelpers searched [CancellationRequested 7; Call kernelsFolder 9])
    !! "/usr/share/jupyter/kernels" = Some 0.
Proof.
  eapply (@fulfilled_entry_is_permanent sampleHelpers searched
            "/usr/share/jupyter/kernels" 0).
  - reflexivity.
  - vm_compute. reflexivity.
  - vm_compute. exact (fun l absurd => match absurd with end).
Defined.

Lemma cancelled_search_never_globs_witness :
  @globsFor 0 (@run sampleHelpers cancelledEarly [ExistsSettled 0 (Fulfilled true)]) = 0.
Proof.
  apply (@cancelled_search_never_globs sampleHelpers cancelledEarly 0
           {| searchItem := kernelsFolder; cancelToken := 7; stage := AwaitingExists |}).
  - exists [CancellationRequested 7; Call kernelsFolder 7]. reflexivity.
  - reflexivity.
  - reflexivity.
  - left. reflexivity.
Defined.

Lemma findKernelSpecsInPaths_shares_witness :
  fst (@findKernelSpecsInPaths sampleHelpers
         [kernelsFolder; InPath (Uri.file "/opt/kernels"); kernelsFolder] 7 emptySearchState)
  = [0; 1; 0].
Proof.
  pose proof (@findKernelSpecsInPaths_shares sampleHelpers
                [kernelsFolder; InPath (Uri.file "/opt/kernels"); kernelsFolder] 7
                emptySearchState) as (_ & _ & Hshare & _).
  pose proof (Hshare 0 2 kernelsFolder kernelsFolder 0 0 eq_refl eq_refl eq_refl eq_refl
                     eq_refl) as _.
  reflexivity.
Defined.
